(** * IceInternal::UdpTransceiver (src/cpp/src/Ice/UdpTransceiver.cpp)

    A shallow embedding of the datagram transceiver: the two constructors,
    [setBufSize], [write], [read], [shutdownReadWrite] and [close].

    The operating system is an explicit environment.  Every system call the
    code issues is appended to an effect trace, and the value the call
    returns is taken from a script of replies, one reply per call, in the
    order the calls are made.  A call whose script is used up is still in
    progress: its status is [Pending].

    The non-Windows branches of the conditional compilation are the ones
    embedded ([poll] rather than [select]); the wake-up branch of
    [shutdownReadWrite] is embedded apart.  The [assert]s of the source
    are contract preconditions and are not part of the control flow.

    Network.cpp, the logger and the statistics sink are not part of the
    sources: what is assumed of them is said, at the definitions marked
    as modelled from the spec ([errno], [effect], [call]). *)

From Stdlib Require Import ZArith List Bool String Lia.
Import ListNotations.
Open Scope Z_scope.

(** ** Machine integers *)

Module MachineInt.

Definition INT_MIN : Z := -2147483648.
Definition INT_MAX : Z := 2147483647.

(** [static_cast<int>(x)]: the two's complement value of the low 32 bits. *)
Definition to_int (z : Z) : Z := (z + 2 ^ 31) mod 2 ^ 32 - 2 ^ 31.

(** Conversion of an [int] or [ssize_t] to [size_t] (64 bits). *)
Definition to_size_t (z : Z) : Z := z mod 2 ^ 64.

(** [a - b] on [int]. *)
Definition int_sub (a b : Z) : Z := to_int (a - b).

Definition in_int (z : Z) : Prop := INT_MIN <= z <= INT_MAX.

End MachineInt.
Import MachineInt.

(** ** Constants (lines 650-651) *)

Definition _udpOverhead : Z := 20 + 8.
Definition _maxPacketSize : Z := 65535 - _udpOverhead.
Definition INVALID_SOCKET : Z := -1.

(** ** The operating system seen from the transceiver *)

(** Modelled from the spec: the error classes of Network.cpp, which is not
    part of the sources at hand.  The spec names a signal-interrupted call
    (EINTR-equivalent), a call that would block, a received datagram that
    was truncated, and every other OS error code. *)
Inductive errno : Type :=
| EINTR
| EWOULDBLOCK
| EMSGSIZE
| EOTHER (code : Z).

(** Modelled from the spec: [interrupted()] of Network.cpp. *)
Definition interrupted (e : errno) : bool :=
  match e with EINTR => true | _ => false end.

(** Modelled from the spec: [wouldBlock()] of Network.cpp. *)
Definition wouldBlock (e : errno) : bool :=
  match e with EWOULDBLOCK => true | _ => false end.

(** Modelled from the spec: [recvTruncated()] of Network.cpp. *)
Definition recvTruncated (e : errno) : bool :=
  match e with EMSGSIZE => true | _ => false end.

(** An opaque network address. *)
Definition sockaddr : Type := Z.

(** The exception classes the file throws or lets through. *)
Inductive exn_kind : Type :=
| DatagramLimitException
| MemoryLimitException
| TimeoutException
| ConnectionLostException
| SocketException (error : errno)
| ConnectFailedException (error : errno)
| DNSException.

(** What a [throw] expression throws: [throw E(...)] throws an object of
    class [E], [throw new E(...)] throws a pointer to one. *)
Inductive thrown : Type :=
| ByValue (k : exn_kind)
| ByPointer (k : exn_kind).

(** The result of a system call: [SOCKET_ERROR] with the error code left
    in errno, or a count that is not negative. *)
Inductive sysret : Type :=
| SOCKET_ERROR (e : errno)
| SysOk (n : N).

(** One reply of the environment.  [rv] is the value the call returns;
    [data] and [peer] are the datagram and the sender's address a receive
    delivers; [connect_exn] is the exception [doConnect] raises when the
    reply is followed by the connect to the first peer; [shutdown_now] says
    that another thread ran [shutdownReadWrite] while the call was in
    progress. *)
Record reply : Type := mkReply {
  rv : sysret;
  data : Z -> Z;
  peer : sockaddr;
  connect_exn : option exn_kind;
  shutdown_now : bool
}.

Inductive pollev : Type := POLLIN | POLLOUT.

(** The calls that leave the file: the system calls it makes itself and
    the helpers of Network.cpp, which wrap one system call each. *)
Inductive syscall : Type :=
| sys_send (fd : Z) (len : Z)
| sys_recv (fd : Z) (len : Z)
| sys_recvfrom (fd : Z) (len : Z)
| sys_poll (fd : Z) (events : pollev) (timeout : Z)
| getAddressForServer (port : Z)
| createSocket (fd : Z)
| closeSocket (fd : Z)
| setBlock (fd : Z) (block : bool)
| doConnect (fd : Z) (to : sockaddr)
| doBind (fd : Z) (a : sockaddr)
| setReuseAddress (fd : Z)
| setMcastGroup (fd : Z) (group : sockaddr)
| setMcastInterface (fd : Z)
| setMcastTtl (fd : Z) (ttl : Z)
| getBufferSize (receive : bool) (fd : Z)
| setBufferSize (receive : bool) (fd : Z) (sz : Z)
| shutdownSocketReadWrite (fd : Z).

Inductive warning : Type :=
| WarnDatagramLimit (packetSize : Z)
| WarnInvalidSize (receive : bool) (sizeRequested dfltSize : Z)
| WarnAdjusted (receive : bool) (sizeRequested applied : Z).

(** Everything an operation does that is visible outside the object.

    Modelled from the spec: [Trace level] stands for one whole trace
    statement of the source, [Warn] for a warning statement and
    [BytesSent], [BytesReceived] for a call of the statistics sink.  The
    logger, the statistics sink and the helpers of Network.cpp that
    [toString()] (lines 372-385) calls for the text of a trace line are not
    under src/.  Sections 1 and 6 of the spec take them as write-only sinks
    that are purely observational and never affect control flow, so here
    they do not throw and the calls [toString()] makes are not recorded
    (the one exception is said at [shutdownReadWrite_wake]). *)
Inductive effect : Type :=
| Sys (c : syscall)
| Warn (w : warning)
| Cerr (packetSize maxPacketSize sndSize : Z)
| Trace (level : Z)
| BytesSent (n : Z)
| BytesReceived (n : Z).

Definition is_wait (e : effect) : bool :=
  match e with Sys (sys_poll _ _ _) => true | _ => false end.

Definition is_syscall (e : effect) : bool :=
  match e with Sys _ => true | _ => false end.

(** ** Buffer (Ice/Buffer.h): a byte container and a position in it *)

Record Buffer : Type := mkBuffer {
  b_size : Z;          (* buf.b.size(), a size_t *)
  b_at : Z -> Z;       (* buf.b[k] *)
  i : Z                (* buf.i, as an offset from buf.b.begin() *)
}.

(** [buf.b.resize(n)]: new elements are zero. *)
Definition resize (buf : Buffer) (n : Z) : Buffer :=
  {| b_size := to_size_t n;
     b_at := fun k => if k <? b_size buf then b_at buf k else 0;
     i := i buf |}.

(** A receive of [n] bytes into [&buf.b[0]]. *)
Definition store (buf : Buffer) (n : Z) (d : Z -> Z) : Buffer :=
  {| b_size := b_size buf;
     b_at := fun k => if (0 <=? k) && (k <? n) then d k else b_at buf k;
     i := i buf |}.

Definition set_i (buf : Buffer) (pos : Z) : Buffer :=
  {| b_size := b_size buf; b_at := b_at buf; i := pos |}.

(** ** The transceiver *)

Record UdpTransceiver : Type := mkUdp {
  network : Z;                 (* _traceLevels->network *)
  _stats : bool;               (* a statistics sink is configured *)
  _incoming : bool;
  _addr : sockaddr;
  _fd : Z;
  _connect : bool;
  _warn : bool;
  _shutdownReadWrite : bool;
  _rcvSize : Z;
  _sndSize : Z;
  _mcastServer : bool
}.

Definition set_fd (t : UdpTransceiver) (fd : Z) : UdpTransceiver :=
  mkUdp (network t) (_stats t) (_incoming t) (_addr t) fd (_connect t)
        (_warn t) (_shutdownReadWrite t) (_rcvSize t) (_sndSize t)
        (_mcastServer t).

Definition set_connect (t : UdpTransceiver) (c : bool) : UdpTransceiver :=
  mkUdp (network t) (_stats t) (_incoming t) (_addr t) (_fd t) c
        (_warn t) (_shutdownReadWrite t) (_rcvSize t) (_sndSize t)
        (_mcastServer t).

Definition set_shutdownReadWrite (t : UdpTransceiver) (s : bool)
  : UdpTransceiver :=
  mkUdp (network t) (_stats t) (_incoming t) (_addr t) (_fd t) (_connect t)
        (_warn t) s (_rcvSize t) (_sndSize t) (_mcastServer t).

(** How a call ends: it returns, it throws, or the script of replies is
    used up while the call is still in progress. *)
Inductive status : Type :=
| Returned (b : bool)
| Threw (x : thrown)
| Pending.

Record outcome : Type := mkOutcome {
  result : status;
  effects : list effect;
  self : UdpTransceiver;
  buffer : Buffer
}.

Inductive label : Type := Repeat | RepeatSelect.

Definition when (c : bool) (e : effect) : list effect :=
  if c then [e] else [].

(** ** write (lines 108-213) *)

(** The ceiling of line 117. *)
Definition sndPacketSize (t : UdpTransceiver) : Z :=
  Z.min _maxPacketSize (int_sub (_sndSize t) _udpOverhead).

(** The body of [write] from one of its two labels.  [eff] is the trace of
    what the call has done so far. *)
Fixpoint write_from (t : UdpTransceiver) (buf : Buffer) (timeout : Z)
    (l : label) (os : list reply) (eff : list effect) : outcome :=
  match l with
  | Repeat =>
      let eff := eff ++ [Sys (sys_send (_fd t) (b_size buf))] in
      match os with
      | [] => mkOutcome Pending eff t buf
      | r :: os' =>
          match rv r with
          | SOCKET_ERROR e =>
              if interrupted e then write_from t buf timeout Repeat os' eff
              else if wouldBlock e
                   then write_from t buf timeout RepeatSelect os' eff
                   else mkOutcome (Threw (ByValue (SocketException e)))
                                  eff t buf
          | SysOk n =>
              let ret := Z.of_N n in
              let eff := eff ++ when (3 <=? network t) (Trace 3)
                             ++ when (_stats t) (BytesSent (to_int ret)) in
              mkOutcome (Returned true) eff t (set_i buf (b_size buf))
          end
      end
  | RepeatSelect =>
      if timeout =? 0 then mkOutcome (Returned false) eff t buf
      else
        let eff := eff ++ [Sys (sys_poll (_fd t) POLLOUT timeout)] in
        match os with
        | [] => mkOutcome Pending eff t buf
        | r :: os' =>
            match rv r with
            | SOCKET_ERROR e =>
                if interrupted e
                then write_from t buf timeout RepeatSelect os' eff
                else mkOutcome (Threw (ByValue (SocketException e)))
                               eff t buf
            | SysOk 0%N =>
                mkOutcome (Threw (ByPointer TimeoutException)) eff t buf
            | SysOk _ => write_from t buf timeout Repeat os' eff
            end
        end
  end.

Definition write (t : UdpTransceiver) (buf : Buffer) (timeout : Z)
    (os : list reply) : outcome :=
  let packetSize := sndPacketSize t in
  if packetSize <? to_int (b_size buf)
  then mkOutcome (Threw (ByValue DatagramLimitException))
                 [Cerr packetSize _maxPacketSize (_sndSize t)] t buf
  else write_from t buf timeout Repeat os [].

(** ** read (lines 215-364) *)

Definition rcvPacketSize (t : UdpTransceiver) : Z :=
  Z.min _maxPacketSize (int_sub (_rcvSize t) _udpOverhead).

(** A [shutdownReadWrite] of another thread during a call sets the flag. *)
Definition observe (t : UdpTransceiver) (r : reply) : UdpTransceiver :=
  set_shutdownReadWrite t (_shutdownReadWrite t || shutdown_now r).

(** Lines 286-348 for a receive that returned [SOCKET_ERROR]: where the
    control goes, or how the call ends. *)
Inductive recv_error_action : Type :=
| GoRepeat
| GoRepeatSelect
| End (s : status) (eff : list effect).

Definition on_recv_error (t : UdpTransceiver) (timeout : Z) (e : errno)
  : recv_error_action :=
  if interrupted e then GoRepeat
  else if wouldBlock e then
    if timeout =? 0 then End (Returned false) [] else GoRepeatSelect
  else if recvTruncated e then
    End (Threw (ByValue DatagramLimitException))
        (when (_warn t) (Warn (WarnDatagramLimit (rcvPacketSize t))))
  else End (Threw (ByValue (SocketException e))) [].

(** Lines 350-363. *)
Definition read_success (t : UdpTransceiver) (buf : Buffer) (ret : Z)
    (eff : list effect) : outcome :=
  let eff := eff ++ when (3 <=? network t) (Trace 3)
                 ++ when (_stats t) (BytesReceived (to_int ret)) in
  let buf := resize buf ret in
  mkOutcome (Returned true) eff t (set_i buf (b_size buf)).

Fixpoint read_from (t : UdpTransceiver) (buf : Buffer) (timeout : Z)
    (l : label) (os : list reply) (eff : list effect) : outcome :=
  let packetSize := rcvPacketSize t in
  match l with
  | Repeat =>
      if _shutdownReadWrite t
      then mkOutcome (Threw (ByValue ConnectionLostException)) eff t buf
      else
        let call := if _connect t then sys_recvfrom (_fd t) packetSize
                    else sys_recv (_fd t) packetSize in
        let eff := eff ++ [Sys call] in
        match os with
        | [] => mkOutcome Pending eff t buf
        | r :: os' =>
            let t := observe t r in
            match rv r with
            | SysOk n =>
                let ret := Z.of_N n in
                let buf := store buf ret (data r) in
                if _connect t then
                  let eff := eff ++ [Sys (doConnect (_fd t) (peer r))] in
                  match connect_exn r with
                  | Some x => mkOutcome (Threw (ByValue x)) eff t buf
                  | None =>
                      let t := set_connect t false in
                      read_success t buf ret
                        (eff ++ when (1 <=? network t) (Trace 1))
                  end
                else read_success t buf ret eff
            | SOCKET_ERROR e =>
                match on_recv_error t timeout e with
                | GoRepeat => read_from t buf timeout Repeat os' eff
                | GoRepeatSelect =>
                    read_from t buf timeout RepeatSelect os' eff
                | End s w => mkOutcome s (eff ++ w) t buf
                end
            end
        end
  | RepeatSelect =>
      let eff := eff ++ [Sys (sys_poll (_fd t) POLLIN (-1))] in
      match os with
      | [] => mkOutcome Pending eff t buf
      | r :: os' =>
          let t := observe t r in
          match rv r with
          | SOCKET_ERROR e =>
              if interrupted e
              then read_from t buf timeout RepeatSelect os' eff
              else mkOutcome (Threw (ByValue (SocketException e))) eff t buf
          | SysOk 0%N =>
              mkOutcome (Threw (ByValue TimeoutException)) eff t buf
          | SysOk _ => read_from t buf timeout Repeat os' eff
          end
      end
  end.

Definition read (t : UdpTransceiver) (buf : Buffer) (timeout : Z)
    (os : list reply) : outcome :=
  let packetSize := rcvPacketSize t in
  if packetSize <? to_int (b_size buf)
  then mkOutcome (Threw (ByValue DatagramLimitException))
                 (when (_warn t) (Warn (WarnDatagramLimit packetSize))) t buf
  else read_from t (set_i (resize buf packetSize) 0) timeout Repeat os [].

(** ** close, shutdownWrite, shutdownReadWrite, checkSendSize *)

(** Lines 31-43. *)
Definition close (t : UdpTransceiver) : UdpTransceiver * list effect :=
  (set_fd t INVALID_SOCKET,
   when (1 <=? network t) (Trace 1) ++ [Sys (closeSocket (_fd t))]).

(** Lines 45-48. *)
Definition shutdownWrite (t : UdpTransceiver)
  : UdpTransceiver * list effect := (t, []).

(** Lines 50-106, the branch of the platforms on which the shutdown of the
    socket wakes a thread that waits on it. *)
Definition shutdownReadWrite (t : UdpTransceiver)
  : UdpTransceiver * list effect :=
  (set_shutdownReadWrite t true,
   when (2 <=? network t) (Trace 2)
     ++ [Sys (shutdownSocketReadWrite (_fd t))]).

(** Lines 393-405. *)
Definition checkSendSize (t : UdpTransceiver) (buf : Buffer)
    (messageSizeMax : Z) : option exn_kind :=
  if messageSizeMax <? b_size buf then Some MemoryLimitException
  else if sndPacketSize t <? to_int (b_size buf)
       then Some DatagramLimitException
       else None.

(** ** Construction *)

(** What the constructors read from the communicator instance. *)
Record Instance : Type := mkInstance {
  traceLevels_network : Z;
  initializationData_stats : bool;
  Ice_Warn_Datagrams : Z;          (* getPropertyAsInt *)
  Ice_UDP_RcvSize : option Z;      (* None: the property is not set *)
  Ice_UDP_SndSize : option Z
}.

(** The environment of a construction: which helper call throws, and the
    values the successful ones return.  [applied] is the size the OS
    reports after it was asked for a size; [uninit] is the content of the
    object's memory before the constructor runs. *)
Record OS : Type := mkOS {
  fails : syscall -> option exn_kind;
  new_fd : Z;
  resolved : sockaddr;
  multicast : sockaddr -> bool;
  dflt : bool -> Z;
  applied : bool -> Z -> Z;
  uninit : UdpTransceiver
}.

Inductive res (A : Type) : Type :=
| Ok (a : A)
| Raise (x : exn_kind).
Arguments Ok {A} a.
Arguments Raise {A} x.

(** Code that changes the object, calls out and may throw. *)
Definition M (A : Type) : Type :=
  UdpTransceiver -> list effect -> res A * UdpTransceiver * list effect.

Definition ret {A} (a : A) : M A := fun t eff => (Ok a, t, eff).

Definition bind {A B} (c : M A) (k : A -> M B) : M B :=
  fun t eff =>
    match c t eff with
    | (Ok a, t', eff') => k a t' eff'
    | (Raise x, t', eff') => (Raise x, t', eff')
    end.

Notation "x <- c ;; k" := (bind c (fun x => k))
  (at level 61, c at next level, right associativity).
Notation "c ;;; k" := (bind c (fun _ => k))
  (at level 61, right associativity).

Definition get : M UdpTransceiver := fun t eff => (Ok t, t, eff).

Definition modify (f : UdpTransceiver -> UdpTransceiver) : M unit :=
  fun t eff => (Ok tt, f t, eff).

Definition emit (e : effect) : M unit :=
  fun t eff => (Ok tt, t, eff ++ [e]).

(** The descriptor a helper of Network.cpp is given. *)
Definition fd_of (c : syscall) : option Z :=
  match c with
  | setBlock fd _ | doConnect fd _ | doBind fd _ | setReuseAddress fd
  | setMcastGroup fd _ | setMcastInterface fd | setMcastTtl fd _
  | getBufferSize _ fd | setBufferSize _ fd _ => Some fd
  | _ => None
  end.

(** Modelled from the spec: a call of a helper of Network.cpp during
    construction ([setBlock], [doConnect], [doBind], [setReuseAddress],
    [setMcastGroup], [setMcastInterface], [setMcastTtl], the buffer size
    helpers); Network.cpp is not under src/.  Sections 4.1 (step 5) and 7
    say that on any failure during construction the socket is released,
    and the handlers of the constructors (lines 464-468, 555-559) only
    invalidate the handle: so a helper that is given a descriptor and
    throws has closed that descriptor before it throws. *)
Definition call (os : OS) (c : syscall) : M unit :=
  fun t eff =>
    match fails os c with
    | Some x =>
        (Raise x, t,
         eff ++ Sys c :: match fd_of c with
                         | Some fd => [Sys (closeSocket fd)]
                         | None => []
                         end)
    | None => (Ok tt, t, eff ++ [Sys c])
    end.

Definition whenM (c : bool) (m : M unit) : M unit :=
  if c then m else ret tt.

(** [try { body } catch(...) { handler; throw; }] *)
Definition try_catch_rethrow (body handler : M unit) : M unit :=
  fun t eff =>
    match body t eff with
    | (Ok a, t', eff') => (Ok a, t', eff')
    | (Raise x, t', eff') =>
        match handler t' eff' with
        | (Ok _, t'', eff'') => (Raise x, t'', eff'')
        | (Raise y, t'', eff'') => (Raise y, t'', eff'')
        end
    end.

Definition set_size (receive : bool) (sz : Z) (t : UdpTransceiver)
  : UdpTransceiver :=
  if receive
  then mkUdp (network t) (_stats t) (_incoming t) (_addr t) (_fd t)
             (_connect t) (_warn t) (_shutdownReadWrite t) sz (_sndSize t)
             (_mcastServer t)
  else mkUdp (network t) (_stats t) (_incoming t) (_addr t) (_fd t)
             (_connect t) (_warn t) (_shutdownReadWrite t) (_rcvSize t) sz
             (_mcastServer t).

Definition get_size (receive : bool) (t : UdpTransceiver) : Z :=
  if receive then _rcvSize t else _sndSize t.

Definition set_addr (a : sockaddr) (t : UdpTransceiver) : UdpTransceiver :=
  mkUdp (network t) (_stats t) (_incoming t) a (_fd t) (_connect t)
        (_warn t) (_shutdownReadWrite t) (_rcvSize t) (_sndSize t)
        (_mcastServer t).

Definition set_mcastServer (m : bool) (t : UdpTransceiver)
  : UdpTransceiver :=
  mkUdp (network t) (_stats t) (_incoming t) (_addr t) (_fd t) (_connect t)
        (_warn t) (_shutdownReadWrite t) (_rcvSize t) (_sndSize t) m.

(** [getPropertyAsIntWithDefault]. *)
Definition getPropertyAsIntWithDefault (p : option Z) (d : Z) : Z :=
  match p with Some v => v | None => d end.

(** ** setBufSize (lines 576-644) *)

(** One turn of the loop: [receive] is [i == 0]. *)
Definition setBufSize_dir (os : OS) (inst : Instance) (receive : bool)
  : M unit :=
  t <- get ;;
  call os (getBufferSize receive (_fd t)) ;;;
  let dfltSize := dflt os receive in
  modify (set_size receive dfltSize) ;;;
  let prop := if receive then Ice_UDP_RcvSize inst
              else Ice_UDP_SndSize inst in
  let sizeRequested := getPropertyAsIntWithDefault prop dfltSize in
  sizeRequested <-
    (if sizeRequested <? _udpOverhead
     then emit (Warn (WarnInvalidSize receive sizeRequested dfltSize)) ;;;
          ret dfltSize
     else ret sizeRequested) ;;
  whenM (negb (sizeRequested =? dfltSize))
    (call os (setBufferSize receive (_fd t) sizeRequested) ;;;
     call os (getBufferSize receive (_fd t)) ;;;
     let now := applied os receive sizeRequested in
     modify (set_size receive now) ;;;
     whenM (now <? sizeRequested)
       (emit (Warn (WarnAdjusted receive sizeRequested now)))).

Definition setBufSize (os : OS) (inst : Instance) : M unit :=
  setBufSize_dir os inst true ;;;
  setBufSize_dir os inst false.

(** ** The constructors (lines 413-565) *)

(** [_fd = createSocket(true, family)]: the call is recorded when it
    returns a descriptor. *)
Definition createSocket_ (os : OS) : M unit :=
  fun t eff =>
    match fails os (createSocket (new_fd os)) with
    | Some x => (Raise x, t, eff)
    | None => (Ok tt, set_fd t (new_fd os),
               eff ++ [Sys (createSocket (new_fd os))])
    end.

(** The handler of both constructors (lines 464-468 and 555-559). *)
Definition ctor_handler : M unit :=
  modify (fun t => set_fd t INVALID_SOCKET).

(** The member initialisers; the members they leave out keep what the
    memory held. *)
Definition init_members (os : OS) (inst : Instance) (incoming : bool)
    (addr : sockaddr) (connect : bool) : UdpTransceiver :=
  mkUdp (traceLevels_network inst) (initializationData_stats inst)
        incoming addr (_fd (uninit os)) connect
        (0 <? Ice_Warn_Datagrams inst) false
        (_rcvSize (uninit os)) (_sndSize (uninit os))
        (_mcastServer (uninit os)).

(** Connect mode (lines 413-474). *)
Definition connect_ctor_body (os : OS) (inst : Instance)
    (mcastInterface : string) (mcastTtl : Z) : M unit :=
  createSocket_ os ;;;
  setBufSize os inst ;;;
  t <- get ;;
  call os (setBlock (_fd t) false) ;;;
  call os (doConnect (_fd t) (_addr t)) ;;;
  modify (fun t => set_connect t false) ;;;
  whenM (multicast os (_addr t))
    (whenM (0 <? Z.of_nat (String.length mcastInterface))
       (call os (setMcastInterface (_fd t))) ;;;
     whenM (negb (mcastTtl =? -1))
       (call os (setMcastTtl (_fd t) mcastTtl))) ;;;
  whenM (1 <=? network t) (emit (Trace 1)).

Definition UdpTransceiver_connect (os : OS) (inst : Instance)
    (addr : sockaddr) (mcastInterface : string) (mcastTtl : Z)
  : res unit * UdpTransceiver * list effect :=
  try_catch_rethrow (connect_ctor_body os inst mcastInterface mcastTtl)
    ctor_handler (init_members os inst false addr true) [].

(** Bind mode (lines 476-565). *)
Definition bind_ctor_body (os : OS) (inst : Instance) (port : Z)
    (mcastInterface : string) : M unit :=
  call os (getAddressForServer port) ;;;
  modify (set_addr (resolved os)) ;;;
  createSocket_ os ;;;
  setBufSize os inst ;;;
  t <- get ;;
  call os (setBlock (_fd t) false) ;;;
  whenM (2 <=? network t) (emit (Trace 2)) ;;;
  (if multicast os (_addr t)
   then call os (setReuseAddress (_fd t)) ;;;
        call os (doBind (_fd t) (_addr t)) ;;;
        call os (setMcastGroup (_fd t) (_addr t)) ;;;
        modify (set_mcastServer true)
   else call os (setReuseAddress (_fd t)) ;;;
        call os (doBind (_fd t) (_addr t))) ;;;
  whenM (1 <=? network t) (emit (Trace 1)).

Definition UdpTransceiver_bind (os : OS) (inst : Instance) (port : Z)
    (mcastInterface : string) (connect : bool)
  : res unit * UdpTransceiver * list effect :=
  try_catch_rethrow (bind_ctor_body os inst port mcastInterface)
    ctor_handler (init_members os inst true (_addr (uninit os)) connect) [].

(** The descriptors a trace has created and not closed. *)
Fixpoint open_sockets (eff : list effect) (acc : list Z) : list Z :=
  match eff with
  | [] => acc
  | Sys (createSocket fd) :: eff' => open_sockets eff' (fd :: acc)
  | Sys (closeSocket fd) :: eff' =>
      open_sockets eff' (List.filter (fun x => negb (x =? fd)) acc)
  | _ :: eff' => open_sockets eff' acc
  end.

(** ** Catching what was thrown *)

(** A handler [catch(const E&)] takes an object of class [E]; it does not
    take a pointer to one. *)
Definition exn_eqb_kind (h k : exn_kind) : bool :=
  match h, k with
  | DatagramLimitException, DatagramLimitException => true
  | MemoryLimitException, MemoryLimitException => true
  | TimeoutException, TimeoutException => true
  | ConnectionLostException, ConnectionLostException => true
  | SocketException _, SocketException _ => true
  | ConnectFailedException _, ConnectFailedException _ => true
  | DNSException, DNSException => true
  | _, _ => false
  end.

Definition caught_by_ref (h : exn_kind) (x : thrown) : bool :=
  match x with
  | ByValue k => exn_eqb_kind h k
  | ByPointer _ => false
  end.

Definition is_timeout_error (x : thrown) : bool :=
  caught_by_ref TimeoutException x.

(** ** Scripts of replies *)

Definition mk (r : sysret) : reply := mkReply r (fun _ => 0) 0 None false.

Definition is_interrupt (r : reply) : bool :=
  match rv r with SOCKET_ERROR e => interrupted e | SysOk _ => false end.

Definition is_wouldBlock (r : reply) : bool :=
  match rv r with SOCKET_ERROR e => wouldBlock e | SysOk _ => false end.

(** An unending run of the environment, [s : nat -> reply], is an OS in
    which every system call the operation makes returns: the k-th call
    gets the reply [s k].  A call that never returns (a [poll] without
    time limit on a socket that stays idle) is not such a run; it is a
    script that ends, and the operation is then [Pending] for good.
    [prefix s n] is the first [n] replies of the run. *)
Fixpoint prefix (s : nat -> reply) (n : nat) : list reply :=
  match n with
  | O => []
  | S n' => s O :: prefix (fun k => s (S k)) n'
  end.

(** The operation ends in the run [s], in which every call returns. *)
Definition terminates (run : list reply -> outcome) (s : nat -> reply)
  : Prop :=
  exists n, result (run (prefix s n)) <> Pending.

(** ** Sample objects *)

Definition udp (fd : Z) (connect shutdown : bool) (rcv snd : Z)
  : UdpTransceiver :=
  mkUdp 0 false true 0 fd connect false shutdown rcv snd false.

Definition payload (n : Z) : Buffer := mkBuffer n (fun _ => 0) 0.

(** A wait that has no time limit. *)
Definition waits_forever (e : effect) : Prop :=
  match e with
  | Sys (sys_poll _ _ tm) => tm = -1
  | _ => True
  end.

(** The call ended with an exception that a handler for
    [Ice::TimeoutException] takes. *)
Definition raises_timeout (o : outcome) : bool :=
  match result o with
  | Threw x => is_timeout_error x
  | _ => false
  end.

(** An environment in which the socket is reported ready and then is not,
    over and over: would-block, ready, would-block, ready, ... *)
Fixpoint busy (k : nat) : reply :=
  match k with
  | O => mk (SOCKET_ERROR EWOULDBLOCK)
  | S O => mk (SysOk 1)
  | S (S k') => busy k'
  end.

(** A reply that is neither an interruption nor a would-block. *)
Definition calm (r : reply) : bool :=
  negb (is_interrupt r) && negb (is_wouldBlock r).

(** An environment that interrupts three calls and then transfers 100
    bytes. *)
Definition settles (k : nat) : reply :=
  if (k <? 3)%nat then mk (SOCKET_ERROR EINTR) else mk (SysOk 100).

(** The size of the caller's buffer when a [read] that passed the ceiling
    check is over or in progress: the received length on success, the
    ceiling otherwise. *)
Definition buffer_after_read (os : list reply) (ceiling : Z) (o : outcome)
  : Prop :=
  match result o with
  | Returned true =>
      exists r n, In r os /\ rv r = SysOk n /\
                  b_size (buffer o) = to_size_t (Z.of_N n)
  | _ => b_size (buffer o) = ceiling
  end.

(** A computation leaves the member [f] of the object as it was. *)
Definition keeps {A B : Type} (f : UdpTransceiver -> B) (m : M A) : Prop :=
  forall t eff, f (snd (fst (m t eff))) = f t.

(** An environment in which every call succeeds, and an instance with no
    property set. *)
Definition os_ok : OS :=
  mkOS (fun _ => None) 7 9000 (fun _ => false) (fun _ => 65536)
       (fun _ z => z) (udp 0 false false 0 0).

Definition inst0 : Instance := mkInstance 0 false 0 None None.

(** An environment in which the connect to the target is refused. *)
Definition os_connect_refused : OS :=
  mkOS (fun c => match c with
                 | doConnect _ _ => Some (ConnectFailedException (EOTHER 111))
                 | _ => None
                 end)
       7 9000 (fun _ => false) (fun _ => 65536) (fun _ z => z)
       (udp 0 false false 0 0).

(** An environment whose default buffer sizes are 16 bytes. *)
Definition os_small : OS :=
  mkOS (fun _ => None) 7 9000 (fun _ => false) (fun _ => 16)
       (fun _ z => z) (udp 0 false false 0 0).

Definition closes (e : effect) : bool :=
  match e with Sys (closeSocket _) => true | _ => false end.

(** The size section 4.3 of the specification stores for a direction:
    the default when there is no override, when the override is below
    the overhead or when it equals the default; the size the OS applied
    otherwise. *)
Definition spec_negotiated_size (os : OS) (receive : bool)
    (override : option Z) : Z :=
  let d := dflt os receive in
  match override with
  | None => d
  | Some v => if v <? 28 then d
              else if v =? d then d
              else applied os receive v
  end.

(** What section 4.3 does on the way: read the default, warn about an
    override below the overhead, request a differing size, read the
    applied size back and warn when it is smaller than requested. *)
Definition spec_negotiation_effects (os : OS) (receive : bool) (fd : Z)
    (override : option Z) : list effect :=
  let d := dflt os receive in
  let v := match override with Some v => v | None => d end in
  let v' := if v <? 28 then d else v in
  [Sys (getBufferSize receive fd)]
  ++ (if v <? 28 then [Warn (WarnInvalidSize receive v d)] else [])
  ++ (if v' =? d then []
      else [Sys (setBufferSize receive fd v'); Sys (getBufferSize receive fd)]
           ++ (if applied os receive v' <? v'
               then [Warn (WarnAdjusted receive v' (applied os receive v'))]
               else [])).

Definition override_of (inst : Instance) (receive : bool) : option Z :=
  if receive then Ice_UDP_RcvSize inst else Ice_UDP_SndSize inst.

(** ** Vocabulary of the further properties *)

(** The calls a [write] may make: a send of the whole payload on [_fd], or
    a wait for writability on [_fd] with the caller's timeout, which is
    then not 0. *)
Definition write_call_ok (t : UdpTransceiver) (buf : Buffer) (timeout : Z)
    (e : effect) : Prop :=
  match e with
  | Sys (sys_send fd len) => fd = _fd t /\ len = b_size buf
  | Sys (sys_poll fd ev tm) =>
      fd = _fd t /\ ev = POLLOUT /\ tm = timeout /\ timeout <> 0
  | Sys _ => False
  | _ => True
  end.

(** The calls a [read] may make: a receive of the ceiling on [_fd]
    ([recvfrom] when the transceiver must connect, [recv] when not), a
    wait for readability on [_fd], and the connect to the first peer. *)
Definition read_call_ok (t : UdpTransceiver) (e : effect) : Prop :=
  match e with
  | Sys (sys_recv fd len) =>
      fd = _fd t /\ len = rcvPacketSize t /\ _connect t = false
  | Sys (sys_recvfrom fd len) =>
      fd = _fd t /\ len = rcvPacketSize t /\ _connect t = true
  | Sys (sys_poll fd ev tm) => fd = _fd t /\ ev = POLLIN
  | Sys (doConnect fd _) => fd = _fd t /\ _connect t = true
  | Sys _ => False
  | _ => True
  end.

Definition is_bytes_sent (e : effect) : bool :=
  match e with BytesSent _ => true | _ => false end.

Definition is_bytes_received (e : effect) : bool :=
  match e with BytesReceived _ => true | _ => false end.

Definition is_warning (e : effect) : bool :=
  match e with Warn _ => true | _ => false end.

Definition succeeded (o : outcome) : bool :=
  match result o with Returned true => true | _ => false end.

(** The assertion of the destructor (lines 567-570). *)
Definition destructor_assert (t : UdpTransceiver) : bool :=
  _fd t =? INVALID_SOCKET.

(** The call ended with a SocketException that carries the error of an
    interrupted system call. *)
Definition surfaces_interrupt (o : outcome) : bool :=
  match result o with
  | Threw (ByValue (SocketException e)) => interrupted e
  | Threw (ByPointer (SocketException e)) => interrupted e
  | _ => false
  end.

Definition throws_limit (o : outcome) : bool :=
  match result o with
  | Threw (ByValue DatagramLimitException) => true
  | _ => false
  end.

(** The members that [read] and [write] only read. *)
Definition same_configuration (t t' : UdpTransceiver) : Prop :=
  network t' = network t /\ _stats t' = _stats t /\
  _incoming t' = _incoming t /\ _addr t' = _addr t /\ _fd t' = _fd t /\
  _warn t' = _warn t /\ _rcvSize t' = _rcvSize t /\
  _sndSize t' = _sndSize t /\ _mcastServer t' = _mcastServer t.

(** A datagram of three bytes, 65 66 67, from the peer 77. *)
Definition abc : reply := mkReply (SysOk 3) (fun k => k + 65) 77 None false.

(** A transceiver that warns (Ice.Warn.Datagrams is set). *)
Definition udp_warn (fd : Z) (rcv snd : Z) : UdpTransceiver :=
  mkUdp 0 false true 0 fd false true false rcv snd false.

(** A request to the OS for a buffer size that [setBufSize] may make:
    the configured override of that direction, which is at least the
    overhead and differs from the default. *)
Definition request_ok (os : OS) (inst : Instance) (e : effect) : Prop :=
  match e with
  | Sys (setBufferSize receive _ sz) =>
      _udpOverhead <= sz /\ sz <> dflt os receive /\
      override_of inst receive = Some sz
  | _ => True
  end.

(** The calls of a construction in which no call fails, in the order of
    the source: lines 426-462 for the connect mode, lines 488-553 for the
    bind mode. *)
Definition connect_ctor_calls (os : OS) (inst : Instance) (addr : sockaddr)
    (mcastInterface : string) (mcastTtl : Z) : list effect :=
  let fd := new_fd os in
  [Sys (createSocket fd)]
  ++ spec_negotiation_effects os true fd (Ice_UDP_RcvSize inst)
  ++ spec_negotiation_effects os false fd (Ice_UDP_SndSize inst)
  ++ [Sys (setBlock fd false); Sys (doConnect fd addr)]
  ++ (if multicast os addr
      then when (0 <? Z.of_nat (String.length mcastInterface))
                (Sys (setMcastInterface fd))
           ++ when (negb (mcastTtl =? -1)) (Sys (setMcastTtl fd mcastTtl))
      else [])
  ++ when (1 <=? traceLevels_network inst) (Trace 1).

Definition bind_ctor_calls (os : OS) (inst : Instance) (port : Z)
  : list effect :=
  let fd := new_fd os in
  let a := resolved os in
  [Sys (getAddressForServer port); Sys (createSocket fd)]
  ++ spec_negotiation_effects os true fd (Ice_UDP_RcvSize inst)
  ++ spec_negotiation_effects os false fd (Ice_UDP_SndSize inst)
  ++ [Sys (setBlock fd false)]
  ++ when (2 <=? traceLevels_network inst) (Trace 2)
  ++ [Sys (setReuseAddress fd); Sys (doBind fd a)]
  ++ when (multicast os a) (Sys (setMcastGroup fd a))
  ++ when (1 <=? traceLevels_network inst) (Trace 1).

(** An environment in which every call succeeds and every address is a
    multicast group. *)
Definition os_mcast : OS :=
  mkOS (fun _ => None) 7 9000 (fun _ => true) (fun _ => 65536)
       (fun _ z => z) (udp 0 false false 0 0).

Definition creates (e : effect) : bool :=
  match e with Sys (createSocket _) => true | _ => false end.

(** A receive of a connected transceiver on the descriptor [fd]: a plain
    [recv]; no [recvfrom] and no connect to a first peer. *)
Definition plain_receive (fd : Z) (e : effect) : Prop :=
  match e with
  | Sys (sys_recv fd' _) => fd' = fd
  | Sys (sys_recvfrom _ _) => False
  | Sys (doConnect _ _) => False
  | _ => True
  end.

(** ** shutdownReadWrite where a thread blocked in select must be woken
       (lines 66-101: Windows, Solaris, HP-UX, AIX, macOS) *)

(** What this branch does beside the calls of the rest of the file: it
    reads the local address of the socket and disconnects the socket with
    a connect to an unspecified address. *)
Inductive wake_effect : Type :=
| Did (e : effect)
| fdToLocalAddress (fd : Z)
| connect_AF_UNSPEC (fd : Z).

(** The environment of the branch: which helper throws, the local address
    of the socket and the descriptor of the second socket. *)
Record WakeOS : Type := mkWakeOS {
  wake_fails : wake_effect -> option exn_kind;
  localAddr : sockaddr;
  decoy_fd : Z
}.

(** A helper of Network.cpp, which may throw, followed by the rest. *)
Definition helper (w : WakeOS) (e : wake_effect)
    (k : list wake_effect -> res unit * list wake_effect)
    (eff : list wake_effect) : res unit * list wake_effect :=
  match wake_fails w e with
  | Some x => (Raise x, eff ++ [e])
  | None => k (eff ++ [e])
  end.

(** A system call whose result the code does not look at. *)
Definition unchecked (e : wake_effect)
    (k : list wake_effect -> res unit * list wake_effect)
    (eff : list wake_effect) : res unit * list wake_effect :=
  k (eff ++ [e]).

(** [createSocket], recorded when it returns a descriptor. *)
Definition decoy_socket (w : WakeOS)
    (k : list wake_effect -> res unit * list wake_effect)
    (eff : list wake_effect) : res unit * list wake_effect :=
  match wake_fails w (Did (Sys (createSocket (decoy_fd w)))) with
  | Some x => (Raise x, eff)
  | None => k (eff ++ [Did (Sys (createSocket (decoy_fd w)))])
  end.

(** The trace statement of lines 53-57 comes first and the flag is set
    after it (line 64).  Unlike in the rest of the file, the statement is
    taken here as a call that may throw (its [toString()] calls helpers of
    Network.cpp): if it throws, the flag is not set. *)
Definition trace_throws (w : WakeOS) (t : UdpTransceiver)
  : option exn_kind :=
  if 2 <=? network t then wake_fails w (Did (Trace 2)) else None.

Definition shutdownReadWrite_wake (w : WakeOS) (t : UdpTransceiver)
  : res unit * UdpTransceiver * list wake_effect :=
  let fd := decoy_fd w in
  let traced := List.map Did (when (2 <=? network t) (Trace 2)) in
  match trace_throws w t with
  | Some x => (Raise x, t, traced)
  | None =>
      let run :=
        helper w (fdToLocalAddress (_fd t))
          (helper w (Did (Sys (shutdownSocketReadWrite (_fd t))))
             (fun eff =>
                (decoy_socket w
                   (helper w (Did (Sys (setBlock fd false)))
                      (helper w (Did (Sys (doConnect fd (localAddr w))))
                         (unchecked (Did (Sys (sys_send fd 1)))
                            (helper w (Did (Sys (closeSocket fd)))
                               (fun eff => (Ok tt, eff)))))))
                  (if negb (_connect t)
                   then eff ++ [connect_AF_UNSPEC (_fd t)]
                   else eff)))
          traced in
      (fst run, set_shutdownReadWrite t true, snd run)
  end.

(** The calls of the rest of the file that a trace of the branch holds. *)
Fixpoint did (eff : list wake_effect) : list effect :=
  match eff with
  | [] => []
  | Did e :: eff' => e :: did eff'
  | _ :: eff' => did eff'
  end.

(** An environment of the branch in which no helper throws. *)
Definition wake_ok : WakeOS := mkWakeOS (fun _ => None) 4000 8.






Definition is_trace (e : effect) : bool :=
  match e with Trace _ => true | _ => false end.

(** * Properties *)

(** ** Machine integers *)

Lemma to_int_id z : in_int z -> to_int z = z.
Proof.
  unfold in_int, INT_MIN, INT_MAX, to_int. intros H.
  rewrite Z.mod_small; lia.
Qed.

Lemma to_size_t_id z : 0 <= z < 2 ^ 64 -> to_size_t z = z.
Proof. intros H. unfold to_size_t. now rewrite Z.mod_small. Qed.

Lemma sndPacketSize_exact t :
  in_int (_sndSize t - _udpOverhead) ->
  sndPacketSize t = Z.min 65507 (_sndSize t - 28).
Proof.
  intros H. unfold sndPacketSize, int_sub. rewrite to_int_id by exact H.
  reflexivity.
Qed.

Lemma rcvPacketSize_exact t :
  in_int (_rcvSize t - _udpOverhead) ->
  rcvPacketSize t = Z.min 65507 (_rcvSize t - 28).
Proof.
  intros H. unfold rcvPacketSize, int_sub. rewrite to_int_id by exact H.
  reflexivity.
Qed.

(** ** The size ceiling of write *)

(** C4, as stated, fails for a payload of 2^31 bytes: the length is cast to
    [int] before the comparison of line 118, the cast gives a negative
    number, no exception is thrown and the send is made. *)
Lemma write_ceiling_counterexample :
  let t := udp 5 false false 65536 65536 in
  let P := payload 2147483648 in
  Z.min 65507 (_sndSize t - 28) < b_size P /\
  result (write t P 0 []) <> Threw (ByValue DatagramLimitException) /\
  effects (write t P 0 []) = [Sys (sys_send 5 2147483648)].
Proof.
  cbv zeta. split; [ vm_compute; reflexivity | ].
  split; [ vm_compute; discriminate | vm_compute; reflexivity ].
Qed.

(** C4, amended: a payload whose length fits an [int] and exceeds
    min(65507, sendBufferSize - 28) makes [write] throw
    DatagramLimitException, whatever the timeout and the replies of the
    OS; the call makes no system call (no send, no wait) and leaves the
    object and the buffer as they were. *)
Theorem write_over_ceiling_throws t buf timeout os :
  in_int (_sndSize t - _udpOverhead) ->
  0 <= b_size buf <= INT_MAX ->
  Z.min 65507 (_sndSize t - 28) < b_size buf ->
  let o := write t buf timeout os in
  result o = Threw (ByValue DatagramLimitException) /\
  existsb is_syscall (effects o) = false /\
  self o = t /\ buffer o = buf.
Proof.
  intros Hs Hb Hlt o. subst o. unfold write.
  rewrite (sndPacketSize_exact t Hs).
  rewrite to_int_id by (unfold in_int, INT_MIN, INT_MAX in *; lia).
  destruct (Z.ltb_spec (Z.min 65507 (_sndSize t - 28)) (b_size buf)) as [_|H];
    [ | lia ].
  cbn. repeat split; reflexivity.
Qed.

Lemma write_over_ceiling_throws_witness :
  let t := udp 5 false false 65536 1028 in
  let o := write t (payload 1001) 250 [mk (SysOk 1001)] in
  result o = Threw (ByValue DatagramLimitException) /\
  existsb is_syscall (effects o) = false /\
  self o = t /\ buffer o = payload 1001.
Proof.
  apply (write_over_ceiling_throws (udp 5 false false 65536 1028)
           (payload 1001) 250 [mk (SysOk 1001)]).
  - unfold in_int, INT_MIN, INT_MAX. simpl. lia.
  - unfold INT_MAX. simpl. lia.
  - simpl. lia.
Defined.

(** ** A zero timeout never waits *)

Lemma observe_quiet t r : shutdown_now r = false -> observe t r = t.
Proof.
  intros H. unfold observe, set_shutdownReadWrite. rewrite H, orb_false_r.
  now destruct t.
Qed.

Lemma existsb_snoc {A} (f : A -> bool) (xs : list A) (x : A) :
  existsb f (xs ++ [x]) = existsb f xs || f x.
Proof. rewrite existsb_app. simpl. now rewrite orb_false_r. Qed.

Lemma write_select_zero t buf os eff :
  write_from t buf 0 RepeatSelect os eff = mkOutcome (Returned false) eff t buf.
Proof. destruct os; reflexivity. Qed.

Lemma write_zero_timeout t buf r rest :
  is_wouldBlock r = true ->
  forall ints eff,
    forallb is_interrupt ints = true ->
    let o := write_from t buf 0 Repeat (ints ++ r :: rest) eff in
    result o = Returned false /\
    existsb is_wait (effects o) = existsb is_wait eff.
Proof.
  intros Hr. unfold is_wouldBlock in Hr.
  induction ints as [|x ints IH]; intros eff Hi; cbn [app].
  - cbn [write_from]. destruct (rv r) as [e|n]; [ | discriminate ].
    destruct e; try discriminate. cbn [interrupted wouldBlock].
    rewrite write_select_zero. cbn [result effects].
    split; [ reflexivity | now rewrite existsb_snoc, orb_false_r ].
  - cbn [forallb] in Hi. apply andb_prop in Hi as [Hx Hi].
    unfold is_interrupt in Hx. cbn [write_from].
    destruct (rv x) as [e|n]; [ | discriminate ]. rewrite Hx.
    destruct (IH (eff ++ [Sys (sys_send (_fd t) (b_size buf))]) Hi)
      as [H1 H2].
    split; [ exact H1 | ].
    rewrite H2. now rewrite existsb_snoc, orb_false_r.
Qed.

Lemma read_zero_timeout buf r rest :
  is_wouldBlock r = true ->
  forall ints t eff,
    _shutdownReadWrite t = false ->
    forallb (fun x => is_interrupt x && negb (shutdown_now x)) ints = true ->
    let o := read_from t buf 0 Repeat (ints ++ r :: rest) eff in
    result o = Returned false /\
    existsb is_wait (effects o) = existsb is_wait eff.
Proof.
  intros Hr. unfold is_wouldBlock in Hr.
  induction ints as [|x ints IH]; intros t eff Hsd Hi; cbn [app].
  - cbn [read_from]. rewrite Hsd.
    destruct (rv r) as [e|n]; [ | discriminate ].
    destruct e; try discriminate. cbn.
    rewrite app_nil_r, existsb_snoc.
    split; [ reflexivity | destruct (_connect t); cbn; apply orb_false_r ].
  - cbn [forallb] in Hi. apply andb_prop in Hi as [Hx Hi].
    apply andb_prop in Hx as [Hx Hq]. apply negb_true_iff in Hq.
    unfold is_interrupt in Hx. cbn [read_from]. rewrite Hsd.
    rewrite (observe_quiet t x Hq).
    destruct (rv x) as [e|n]; [ | discriminate ].
    unfold on_recv_error. rewrite Hx.
    edestruct (IH t) as [H1 H2]; [ exact Hsd | exact Hi | ].
    split; [ exact H1 | ].
    rewrite H2, existsb_snoc.
    destruct (_connect t); cbn; apply orb_false_r.
Qed.

(** C8: with a timeout of 0, a [write] whose send would block and a [read]
    whose receive would block (each possibly after interrupted attempts)
    return false; neither throws and neither calls the wait primitive. *)
Theorem zero_timeout_returns_not_ready t buf ints r rest :
  is_wouldBlock r = true ->
  ((sndPacketSize t <? to_int (b_size buf)) = false ->
   forallb is_interrupt ints = true ->
   let o := write t buf 0 (ints ++ r :: rest) in
   result o = Returned false /\ existsb is_wait (effects o) = false)
  /\
  ((rcvPacketSize t <? to_int (b_size buf)) = false ->
   _shutdownReadWrite t = false ->
   forallb (fun x => is_interrupt x && negb (shutdown_now x)) ints = true ->
   let o := read t buf 0 (ints ++ r :: rest) in
   result o = Returned false /\ existsb is_wait (effects o) = false).
Proof.
  intros Hr. split.
  - intros Hc Hi. unfold write. rewrite Hc.
    exact (write_zero_timeout t buf r rest Hr ints [] Hi).
  - intros Hc Hsd Hi. unfold read. rewrite Hc.
    exact (read_zero_timeout _ r rest Hr ints t [] Hsd Hi).
Qed.

Lemma zero_timeout_returns_not_ready_witness :
  let t := udp 5 false false 1028 1028 in
  let eintr := mk (SOCKET_ERROR EINTR) in
  let os := [eintr; eintr] ++ mk (SOCKET_ERROR EWOULDBLOCK) :: [mk (SysOk 9)] in
  (result (write t (payload 100) 0 os) = Returned false /\
   existsb is_wait (effects (write t (payload 100) 0 os)) = false) /\
  (result (read t (payload 100) 0 os) = Returned false /\
   existsb is_wait (effects (read t (payload 100) 0 os)) = false).
Proof.
  cbv zeta.
  destruct (zero_timeout_returns_not_ready (udp 5 false false 1028 1028)
              (payload 100)
              [mk (SOCKET_ERROR EINTR); mk (SOCKET_ERROR EINTR)]
              (mk (SOCKET_ERROR EWOULDBLOCK)) [mk (SysOk 9)] eq_refl)
    as [W R].
  split.
  - apply W; reflexivity.
  - apply R; reflexivity.
Defined.

(** ** Timeouts *)

Lemma read_from_waits_forever buf timeout os :
  forall t l eff,
    Forall waits_forever eff ->
    Forall waits_forever (effects (read_from t buf timeout l os eff)).
Proof.
  assert (Hsnoc : forall eff e, Forall waits_forever eff -> waits_forever e ->
                                Forall waits_forever (eff ++ [e])).
  { intros eff e H He. apply Forall_app. split; [ exact H | ].
    constructor; [ exact He | constructor ]. }
  assert (Hwhen : forall eff c e, Forall waits_forever eff -> waits_forever e ->
                                  Forall waits_forever (eff ++ when c e)).
  { intros eff c e H He. destruct c; cbn; [ now apply Hsnoc | ].
    now rewrite app_nil_r. }
  induction os as [|r os IH]; intros t l eff H; destruct l; cbn [read_from].
  - destruct (_shutdownReadWrite t); cbn; [ exact H | ].
    apply Hsnoc; [ exact H | now destruct (_connect t) ].
  - cbn. apply Hsnoc; [ exact H | reflexivity ].
  - destruct (_shutdownReadWrite t); cbn [effects]; [ exact H | ].
    assert (H1 : Forall waits_forever
                   (eff ++ [Sys (if _connect t
                                 then sys_recvfrom (_fd t) (rcvPacketSize t)
                                 else sys_recv (_fd t) (rcvPacketSize t))])).
    { apply Hsnoc; [ exact H | now destruct (_connect t) ]. }
    destruct (rv r) as [e|n].
    + unfold on_recv_error.
      destruct (interrupted e); [ now apply IH | ].
      destruct (wouldBlock e).
      * destruct (timeout =? 0); cbn; [ now rewrite app_nil_r | now apply IH ].
      * destruct (recvTruncated e); cbn [effects].
        -- now apply Hwhen.
        -- now rewrite app_nil_r.
    + destruct (_connect (observe t r)).
      * destruct (connect_exn r); cbn [effects].
        -- now apply Hsnoc.
        -- unfold read_success; cbn [effects]. rewrite app_assoc.
           repeat apply Hwhen; try exact I. now apply Hsnoc.
      * unfold read_success; cbn [effects]. rewrite app_assoc.
        repeat apply Hwhen; try exact I. exact H1.
  - assert (H1 : Forall waits_forever
                   (eff ++ [Sys (sys_poll (_fd t) POLLIN (-1))])).
    { apply Hsnoc; [ exact H | reflexivity ]. }
    destruct (rv r) as [e|n].
    + destruct (interrupted e); [ now apply IH | exact H1 ].
    + destruct n; [ exact H1 | now apply IH ].
Qed.

(** C1, what the code does: every wait that a [read] makes, whatever its
    [timeout] argument, is a [poll] with the time limit -1 (line 310): it
    has no time limit, so it does not expire. *)
Theorem read_ignores_timeout t buf timeout os :
  Forall waits_forever (effects (read t buf timeout os)).
Proof.
  unfold read. destruct (rcvPacketSize t <? to_int (b_size buf)).
  - cbn. destruct (_warn t); cbn; repeat constructor.
  - apply read_from_waits_forever. constructor.
Qed.

(** [read] with a timeout of 1000 ms on a socket with no datagram: the
    receive would block and the call parks in [poll(fd, POLLIN, -1)]. *)
Example read_timeout_1000_parks :
  let o := read (udp 5 false false 1028 1028) (payload 100) 1000
                [mk (SOCKET_ERROR EWOULDBLOCK)] in
  result o = Pending /\
  effects o = [Sys (sys_recv 5 1000); Sys (sys_poll 5 POLLIN (-1))].
Proof. vm_compute. split; reflexivity. Qed.

Lemma write_from_never_raises_timeout t buf timeout os :
  forall l eff, raises_timeout (write_from t buf timeout l os eff) = false.
Proof.
  induction os as [|r os IH]; intros l eff; destruct l; cbn [write_from].
  - reflexivity.
  - destruct (timeout =? 0); reflexivity.
  - destruct (rv r) as [e|n]; [ | reflexivity ].
    destruct (interrupted e); [ apply IH | ].
    destruct (wouldBlock e); [ apply IH | reflexivity ].
  - destruct (timeout =? 0); [ reflexivity | ].
    destruct (rv r) as [e|n].
    + destruct (interrupted e); [ apply IH | reflexivity ].
    + destruct n; [ reflexivity | apply IH ].
Qed.

(** C2, what the code does: no [write] ever ends with an exception that a
    handler for TimeoutException takes.  When the wait expires, line 188
    throws a pointer ([throw new Ice::TimeoutException]). *)
Theorem write_never_raises_timeout t buf timeout os :
  raises_timeout (write t buf timeout os) = false.
Proof.
  unfold write. destruct (sndPacketSize t <? to_int (b_size buf)).
  - reflexivity.
  - apply write_from_never_raises_timeout.
Qed.

(** [write] with a timeout of 250 ms: the send would block and the wait
    expires. *)
Example write_timeout_250_expires :
  let o := write (udp 5 false false 1028 1028) (payload 100) 250
                 [mk (SOCKET_ERROR EWOULDBLOCK); mk (SysOk 0)] in
  result o = Threw (ByPointer TimeoutException) /\
  effects o = [Sys (sys_send 5 100); Sys (sys_poll 5 POLLOUT 250)] /\
  raises_timeout o = false.
Proof. vm_compute. repeat split; reflexivity. Qed.

(** The sibling path: in [read] the same branch (line 327) throws the
    exception by value. *)
Example read_timeout_by_value :
  let o := read_from (udp 5 false false 1028 1028) (payload 100) 250
                     RepeatSelect [mk (SysOk 0)] [] in
  result o = Threw (ByValue TimeoutException) /\ raises_timeout o = true.
Proof. vm_compute. split; reflexivity. Qed.

(** ** Interrupted calls *)

Lemma busy_never_interrupts k : is_interrupt (busy k) = false.
Proof.
  revert k. fix IH 1. intros [|[|k]]; [ reflexivity | reflexivity | ].
  exact (IH k).
Qed.

Lemma write_busy_pending t buf :
  forall n eff,
    result (write_from t buf (-1) Repeat (prefix busy n) eff) = Pending.
Proof.
  fix IH 1. intros [|[|n]] eff; [ reflexivity | reflexivity | ].
  exact (IH n _).
Qed.

(** C9, as stated, fails: with no interruption at all, a [write] without
    time limit whose socket is reported writable and then would block
    again, over and over, never ends. *)
Lemma finitely_many_interrupts_counterexample :
  let t := udp 5 false false 1028 1028 in
  (forall k, is_interrupt (busy k) = false) /\
  ~ terminates (write t (payload 100) (-1)) busy.
Proof.
  cbv zeta. split; [ exact busy_never_interrupts | ].
  intros [n Hn]. apply Hn. unfold write.
  change (sndPacketSize (udp 5 false false 1028 1028)
          <? to_int (b_size (payload 100))) with false.
  cbv iota. apply write_busy_pending.
Qed.

Lemma write_retry_send t buf timeout r os eff :
  is_interrupt r = true ->
  write_from t buf timeout Repeat (r :: os) eff =
  write_from t buf timeout Repeat os
             (eff ++ [Sys (sys_send (_fd t) (b_size buf))]).
Proof.
  unfold is_interrupt. intros H. cbn [write_from].
  destruct (rv r); [ now rewrite H | discriminate ].
Qed.

Lemma write_retry_wait t buf timeout r os eff :
  is_interrupt r = true -> timeout <> 0 ->
  write_from t buf timeout RepeatSelect (r :: os) eff =
  write_from t buf timeout RepeatSelect os
             (eff ++ [Sys (sys_poll (_fd t) POLLOUT timeout)]).
Proof.
  unfold is_interrupt. intros H Ht. cbn [write_from].
  apply Z.eqb_neq in Ht. rewrite Ht.
  destruct (rv r); [ now rewrite H | discriminate ].
Qed.

Lemma read_retry_recv t buf timeout r os eff :
  is_interrupt r = true -> _shutdownReadWrite t = false ->
  read_from t buf timeout Repeat (r :: os) eff =
  read_from (observe t r) buf timeout Repeat os
            (eff ++ [Sys (if _connect t
                          then sys_recvfrom (_fd t) (rcvPacketSize t)
                          else sys_recv (_fd t) (rcvPacketSize t))]).
Proof.
  unfold is_interrupt. intros H Hs. cbn [read_from]. rewrite Hs.
  destruct (rv r); [ | discriminate ].
  unfold on_recv_error. now rewrite H.
Qed.

Lemma read_retry_wait t buf timeout r os eff :
  is_interrupt r = true ->
  read_from t buf timeout RepeatSelect (r :: os) eff =
  read_from (observe t r) buf timeout RepeatSelect os
            (eff ++ [Sys (sys_poll (_fd t) POLLIN (-1))]).
Proof.
  unfold is_interrupt. intros H. cbn [read_from].
  destruct (rv r); [ now rewrite H | discriminate ].
Qed.

(** One reply either ends a [write] or moves it to a label. *)
Lemma write_step t buf timeout l r eff :
  (exists o, result o <> Pending /\
             forall os, write_from t buf timeout l (r :: os) eff = o) \/
  (exists l' eff',
     forall os, write_from t buf timeout l (r :: os) eff =
                write_from t buf timeout l' os eff').
Proof.
  destruct l; cbn [write_from].
  - destruct (rv r) as [e|n].
    + destruct (interrupted e); [ right; eauto | ].
      destruct (wouldBlock e); [ right; eauto | ].
      left. eexists. split; [ | reflexivity ]. discriminate.
    + left. eexists. split; [ | reflexivity ]. discriminate.
  - destruct (timeout =? 0).
    { left. eexists. split; [ | reflexivity ]. discriminate. }
    destruct (rv r) as [e|n].
    + destruct (interrupted e); [ right; eauto | ].
      left. eexists. split; [ | reflexivity ]. discriminate.
    + destruct n; [ | right; eauto ].
      left. eexists. split; [ | reflexivity ]. discriminate.
Qed.

(** A calm reply ends a [write] at once or after one more calm reply. *)
Lemma write_calm_ends t buf timeout l r1 r2 os eff :
  calm r1 = true -> calm r2 = true ->
  result (write_from t buf timeout l (r1 :: r2 :: os) eff) <> Pending.
Proof.
  unfold calm, is_interrupt, is_wouldBlock. intros H1 H2.
  assert (Hrep : forall eff', result (write_from t buf timeout Repeat
                                        (r2 :: os) eff') <> Pending).
  { intros eff'. cbn [write_from]. destruct (rv r2) as [e|n].
    - apply andb_prop in H2 as [Ha Hb].
      apply negb_true_iff in Ha, Hb. rewrite Ha, Hb. discriminate.
    - discriminate. }
  destruct l.
  - cbn [write_from]. destruct (rv r1) as [e|n].
    + apply andb_prop in H1 as [Ha Hb].
      apply negb_true_iff in Ha, Hb. rewrite Ha, Hb. discriminate.
    + discriminate.
  - cbn [write_from]. destruct (timeout =? 0); [ discriminate | ].
    destruct (rv r1) as [e|n].
    + apply andb_prop in H1 as [Ha _]. apply negb_true_iff in Ha.
      rewrite Ha. discriminate.
    + destruct n; [ discriminate | apply Hrep ].
Qed.

Lemma write_from_terminates t buf timeout N :
  forall s l eff,
    (forall k, (N <= k)%nat -> calm (s k) = true) ->
    exists n, result (write_from t buf timeout l (prefix s n) eff) <> Pending.
Proof.
  induction N as [|N IH]; intros s l eff Hs.
  - exists 2%nat. cbn [prefix]. apply write_calm_ends; apply Hs; lia.
  - destruct (write_step t buf timeout l (s O) eff)
      as [[o [Ho Heq]]|[l' [eff' Heq]]].
    + exists 1%nat. cbn [prefix]. now rewrite Heq.
    + destruct (IH (fun k => s (S k)) l' eff') as [n Hn].
      { intros k Hk. apply Hs. lia. }
      exists (S n). cbn [prefix]. now rewrite Heq.
Qed.

(** One reply either ends a [read] or moves it to a label. *)
Lemma read_step t buf timeout l r eff :
  (exists o, result o <> Pending /\
             forall os, read_from t buf timeout l (r :: os) eff = o) \/
  (exists t' l' eff',
     forall os, read_from t buf timeout l (r :: os) eff =
                read_from t' buf timeout l' os eff').
Proof.
  destruct l; cbn [read_from].
  - destruct (_shutdownReadWrite t).
    { left. eexists. split; [ | reflexivity ]. discriminate. }
    destruct (rv r) as [e|n].
    + unfold on_recv_error.
      destruct (interrupted e); [ right; eauto | ].
      destruct (wouldBlock e).
      * destruct (timeout =? 0); [ | right; eauto ].
        left. eexists. split; [ | reflexivity ]. discriminate.
      * destruct (recvTruncated e);
          left; eexists; (split; [ | reflexivity ]); discriminate.
    + destruct (_connect (observe t r));
        [ destruct (connect_exn r) | ];
        left; eexists; (split; [ | reflexivity ]); discriminate.
  - destruct (rv r) as [e|n].
    + destruct (interrupted e); [ right; eauto | ].
      left. eexists. split; [ | reflexivity ]. discriminate.
    + destruct n; [ | right; eauto ].
      left. eexists. split; [ | reflexivity ]. discriminate.
Qed.

Lemma read_calm_ends t buf timeout l r1 r2 os eff :
  calm r1 = true -> calm r2 = true ->
  result (read_from t buf timeout l (r1 :: r2 :: os) eff) <> Pending.
Proof.
  unfold calm, is_interrupt, is_wouldBlock. intros H1 H2.
  assert (Hrep : forall t' r os' eff',
             match rv r with
             | SOCKET_ERROR e => negb (interrupted e) && negb (wouldBlock e)
             | SysOk _ => true
             end = true ->
             result (read_from t' buf timeout Repeat (r :: os') eff')
             <> Pending).
  { intros t' r os' eff' Hr. cbn [read_from].
    destruct (_shutdownReadWrite t'); [ discriminate | ].
    destruct (rv r) as [e|n].
    - apply andb_prop in Hr as [Ha Hb]. apply negb_true_iff in Ha, Hb.
      unfold on_recv_error. rewrite Ha, Hb.
      destruct (recvTruncated e); discriminate.
    - destruct (_connect (observe t' r));
        [ destruct (connect_exn r) | ]; discriminate. }
  destruct l.
  - apply Hrep. destruct (rv r1); [ exact H1 | reflexivity ].
  - cbn [read_from]. destruct (rv r1) as [e|n].
    + apply andb_prop in H1 as [Ha _]. apply negb_true_iff in Ha.
      rewrite Ha. discriminate.
    + destruct n; [ discriminate | ].
      apply Hrep. destruct (rv r2); [ exact H2 | reflexivity ].
Qed.

Lemma read_from_terminates buf timeout N :
  forall s t l eff,
    (forall k, (N <= k)%nat -> calm (s k) = true) ->
    exists n, result (read_from t buf timeout l (prefix s n) eff) <> Pending.
Proof.
  induction N as [|N IH]; intros s t l eff Hs.
  - exists 2%nat. cbn [prefix]. apply read_calm_ends; apply Hs; lia.
  - destruct (read_step t buf timeout l (s O) eff)
      as [[o [Ho Heq]]|[t' [l' [eff' Heq]]]].
    + exists 1%nat. cbn [prefix]. now rewrite Heq.
    + destruct (IH (fun k => s (S k)) t' l' eff') as [n Hn].
      { intros k Hk. apply Hs. lia. }
      exists (S n). cbn [prefix]. now rewrite Heq.
Qed.

(** C9, amended: an interrupted send, receive or wait is retried, in
    [write] and in [read], and the call goes on as if the interrupted
    attempt had not been made (the interruption is never the outcome);
    and in an environment in which every system call returns and which,
    from some reply on, reports neither an interruption nor a would-block,
    both [write] and [read] end.  (A call that never returns, such as the
    wait without time limit of [read] on an idle socket, leaves the
    operation in progress for good: see [read_timeout_1000_parks].) *)
Theorem interrupts_are_retried t buf timeout :
  (forall r os eff,
     is_interrupt r = true ->
     write_from t buf timeout Repeat (r :: os) eff =
     write_from t buf timeout Repeat os
                (eff ++ [Sys (sys_send (_fd t) (b_size buf))]) /\
     (timeout <> 0 ->
      write_from t buf timeout RepeatSelect (r :: os) eff =
      write_from t buf timeout RepeatSelect os
                 (eff ++ [Sys (sys_poll (_fd t) POLLOUT timeout)])) /\
     (_shutdownReadWrite t = false ->
      read_from t buf timeout Repeat (r :: os) eff =
      read_from (observe t r) buf timeout Repeat os
                (eff ++ [Sys (if _connect t
                              then sys_recvfrom (_fd t) (rcvPacketSize t)
                              else sys_recv (_fd t) (rcvPacketSize t))])) /\
     read_from t buf timeout RepeatSelect (r :: os) eff =
     read_from (observe t r) buf timeout RepeatSelect os
               (eff ++ [Sys (sys_poll (_fd t) POLLIN (-1))])) /\
  (forall s N,
     (forall k, (N <= k)%nat -> calm (s k) = true) ->
     terminates (write t buf timeout) s /\
     terminates (read t buf timeout) s).
Proof.
  split.
  - intros r os eff Hr. repeat split.
    + now apply write_retry_send.
    + intros Ht. now apply write_retry_wait.
    + intros Hs. now apply read_retry_recv.
    + now apply read_retry_wait.
  - intros s N Hs. unfold terminates, write, read. split.
    + destruct (sndPacketSize t <? to_int (b_size buf)).
      * exists 0%nat. discriminate.
      * now apply (write_from_terminates t buf timeout N).
    + destruct (rcvPacketSize t <? to_int (b_size buf)).
      * exists 0%nat. discriminate.
      * now apply (read_from_terminates _ timeout N).
Qed.

Lemma interrupts_are_retried_witness :
  let t := udp 5 false false 1028 1028 in
  let eintr := mk (SOCKET_ERROR EINTR) in
  write_from t (payload 100) 250 Repeat [eintr; mk (SysOk 100)] [] =
  write_from t (payload 100) 250 Repeat [mk (SysOk 100)]
             ([] ++ [Sys (sys_send 5 100)]) /\
  terminates (write t (payload 100) 250) settles /\
  terminates (read t (payload 100) 250) settles.
Proof.
  cbv zeta.
  destruct (interrupts_are_retried (udp 5 false false 1028 1028)
              (payload 100) 250) as [A B].
  split.
  - apply (A (mk (SOCKET_ERROR EINTR)) [mk (SysOk 100)] []). reflexivity.
  - apply (B settles 3%nat). intros k Hk. unfold settles.
    destruct (Nat.ltb_spec k 3); [ lia | reflexivity ].
Defined.

(** ** Shutdown *)

(** C6, as stated, fails: after [shutdownReadWrite], a [read] into a
    buffer larger than the ceiling throws DatagramLimitException, not the
    connection-lost error: the ceiling check of line 226 comes before the
    check of the flag. *)
Lemma read_after_shutdown_counterexample :
  let t := fst (shutdownReadWrite (udp 5 false false 128 128)) in
  _shutdownReadWrite t = true /\
  result (read t (payload 200) (-1) []) =
    Threw (ByValue DatagramLimitException) /\
  result (read t (payload 200) (-1) []) <>
    Threw (ByValue ConnectionLostException).
Proof.
  cbv zeta. split; [ reflexivity | ].
  split; [ vm_compute; reflexivity | vm_compute; discriminate ].
Qed.

(** C6, amended: [shutdownReadWrite] sets the flag; once it is set, every
    [read] ends with an exception before any receive attempt and makes no
    system call at all, so no datagram is returned: DatagramLimitException
    when its buffer fails the ceiling check of line 226,
    ConnectionLostException otherwise.  For a buffer whose size fits an
    [int] (and a receive size for which the subtraction of line 225 does
    not overflow) the check fails exactly when the size exceeds
    min(65507, receiveBufferSize - 28).  A reader whose wait reports
    readiness when the flag is set (by this thread's view or during the
    wait) throws ConnectionLostException without receiving. *)
Theorem read_after_shutdown t0 :
  _shutdownReadWrite (fst (shutdownReadWrite t0)) = true /\
  (forall t buf timeout os,
     _shutdownReadWrite t = true ->
     let o := read t buf timeout os in
     result o = (if rcvPacketSize t <? to_int (b_size buf)
                 then Threw (ByValue DatagramLimitException)
                 else Threw (ByValue ConnectionLostException)) /\
     existsb is_syscall (effects o) = false) /\
  (forall t buf timeout os,
     _shutdownReadWrite t = true ->
     in_int (_rcvSize t - _udpOverhead) ->
     0 <= b_size buf <= INT_MAX ->
     let o := read t buf timeout os in
     result o = (if Z.min 65507 (_rcvSize t - 28) <? b_size buf
                 then Threw (ByValue DatagramLimitException)
                 else Threw (ByValue ConnectionLostException)) /\
     existsb is_syscall (effects o) = false) /\
  (forall t buf timeout r os eff p,
     _shutdownReadWrite t || shutdown_now r = true ->
     rv r = SysOk (Npos p) ->
     let o := read_from t buf timeout RepeatSelect (r :: os) eff in
     result o = Threw (ByValue ConnectionLostException) /\
     effects o = eff ++ [Sys (sys_poll (_fd t) POLLIN (-1))]).
Proof.
  assert (Hcast : forall t buf timeout os,
            _shutdownReadWrite t = true ->
            result (read t buf timeout os) =
              (if rcvPacketSize t <? to_int (b_size buf)
               then Threw (ByValue DatagramLimitException)
               else Threw (ByValue ConnectionLostException)) /\
            existsb is_syscall (effects (read t buf timeout os)) = false).
  { intros t buf timeout os Hs. unfold read.
    destruct (rcvPacketSize t <? to_int (b_size buf)).
    + cbn. split; [ reflexivity | now destruct (_warn t) ].
    + destruct os; cbn [read_from]; rewrite Hs; split; reflexivity. }
  split; [ reflexivity | split; [ | split ] ].
  - intros t buf timeout os Hs o. subst o. now apply Hcast.
  - intros t buf timeout os Hs Hr Hb o. subst o.
    destruct (Hcast t buf timeout os Hs) as [H1 H2].
    rewrite (rcvPacketSize_exact t Hr) in H1.
    rewrite to_int_id in H1
      by (unfold in_int, INT_MIN, INT_MAX in *; lia).
    now split.
  - intros t buf timeout r os eff p Hs Hr o. subst o.
    cbn [read_from]. rewrite Hr.
    assert (Hf : _shutdownReadWrite (observe t r) = true) by exact Hs.
    destruct os; cbn [read_from]; rewrite Hf; split; reflexivity.
Qed.

Lemma read_after_shutdown_witness :
  let t := fst (shutdownReadWrite (udp 5 false false 1028 1028)) in
  let o := read t (payload 100) (-1) [mk (SysOk 100)] in
  let big := read t (payload 2000) (-1) [mk (SysOk 100)] in
  let woken := mkReply (SysOk 1) (fun _ => 0) 0 None true in
  let o' := read_from (udp 5 false false 1028 1028) (payload 1000) (-1)
                      RepeatSelect [woken; mk (SysOk 1)] [] in
  (result o = Threw (ByValue ConnectionLostException) /\
   existsb is_syscall (effects o) = false) /\
  (result big = Threw (ByValue DatagramLimitException) /\
   existsb is_syscall (effects big) = false) /\
  (result o' = Threw (ByValue ConnectionLostException) /\
   effects o' = [] ++ [Sys (sys_poll 5 POLLIN (-1))]).
Proof.
  cbv zeta.
  destruct (read_after_shutdown (udp 5 false false 1028 1028))
    as [_ [A [S B]]].
  split; [ | split ].
  - apply (A (fst (shutdownReadWrite (udp 5 false false 1028 1028)))
             (payload 100) (-1) [mk (SysOk 100)]).
    reflexivity.
  - apply (S (fst (shutdownReadWrite (udp 5 false false 1028 1028)))
             (payload 2000) (-1) [mk (SysOk 100)]).
    + reflexivity.
    + unfold in_int, INT_MIN, INT_MAX. simpl. lia.
    + unfold INT_MAX. simpl. lia.
  - apply (B (udp 5 false false 1028 1028) (payload 1000) (-1)
             (mkReply (SysOk 1) (fun _ => 0) 0 None true)
             [mk (SysOk 1)] [] 1%positive); reflexivity.
Defined.

(** ** The buffer of read *)

Lemma buffer_after_read_cons r os c o :
  buffer_after_read os c o -> buffer_after_read (r :: os) c o.
Proof.
  unfold buffer_after_read. destruct (result o) as [[|]| |]; try easy.
  intros (r' & n & Hin & H). exists r', n. split; [ now right | exact H ].
Qed.

Lemma read_from_buffer timeout c :
  forall os t buf l eff,
    b_size buf = c ->
    buffer_after_read os c (read_from t buf timeout l os eff).
Proof.
  induction os as [|r os IH]; intros t buf l eff Hc.
  - destruct l; cbn [read_from];
      [ destruct (_shutdownReadWrite t) | ]; exact Hc.
  - destruct l; cbn [read_from].
    + destruct (_shutdownReadWrite t); [ exact Hc | ].
      destruct (rv r) as [e|n] eqn:Hr.
      * destruct (on_recv_error (observe t r) timeout e) as [| |s w] eqn:Ha.
        -- apply buffer_after_read_cons. now apply IH.
        -- apply buffer_after_read_cons. now apply IH.
        -- unfold on_recv_error in Ha.
           destruct (interrupted e); [ discriminate | ].
           destruct (wouldBlock e).
           { destruct (timeout =? 0); [ | discriminate ].
             injection Ha as <- <-. exact Hc. }
           destruct (recvTruncated e); injection Ha as <- <-; exact Hc.
      * assert (Hok : forall t' eff',
                  buffer_after_read (r :: os) c
                    (read_success t' (store buf (Z.of_N n) (data r))
                                  (Z.of_N n) eff')).
        { intros t' eff'. unfold buffer_after_read. cbn.
          exists r, n. split; [ now left | now split ]. }
        destruct (_connect (observe t r)); [ | apply Hok ].
        destruct (connect_exn r); [ exact Hc | apply Hok ].
    + destruct (rv r) as [e|n].
      * destruct (interrupted e); [ | exact Hc ].
        apply buffer_after_read_cons. now apply IH.
      * destruct n; [ exact Hc | ].
        apply buffer_after_read_cons. now apply IH.
Qed.

(** C10: once the ceiling check has passed, [read] resizes the caller's
    buffer to min(65507, receiveBufferSize - 28) before the first receive;
    the buffer has that size while the call is in progress and in every
    outcome but success (not ready, connection lost, timeout, truncation,
    transport error, a failed connect to the first peer); on success it
    has the length that was received. *)
Theorem read_leaves_buffer_at_ceiling t buf timeout os :
  28 <= _rcvSize t <= INT_MAX ->
  (rcvPacketSize t <? to_int (b_size buf)) = false ->
  buffer_after_read os (Z.min 65507 (_rcvSize t - 28))
                    (read t buf timeout os).
Proof.
  intros Hr Hc. unfold read. rewrite Hc.
  apply read_from_buffer. cbn.
  assert (Hi : in_int (_rcvSize t - _udpOverhead)).
  { unfold in_int, INT_MIN, INT_MAX, _udpOverhead in *. lia. }
  rewrite (rcvPacketSize_exact t Hi).
  apply to_size_t_id. lia.
Qed.

Lemma read_leaves_buffer_at_ceiling_witness :
  let t := udp 5 false false 1028 1028 in
  buffer_after_read [mk (SOCKET_ERROR EMSGSIZE)] 1000
    (read t (payload 100) 250 [mk (SOCKET_ERROR EMSGSIZE)]) /\
  buffer_after_read [mk (SysOk 42)] 1000
    (read t (payload 100) 250 [mk (SysOk 42)]).
Proof.
  cbv zeta. split.
  - apply (read_leaves_buffer_at_ceiling (udp 5 false false 1028 1028)
             (payload 100) 250 [mk (SOCKET_ERROR EMSGSIZE)]).
    + unfold INT_MAX. simpl. lia.
    + reflexivity.
  - apply (read_leaves_buffer_at_ceiling (udp 5 false false 1028 1028)
             (payload 100) 250 [mk (SysOk 42)]).
    + unfold INT_MAX. simpl. lia.
    + reflexivity.
Defined.

Example read_truncated_leaves_1000 :
  let o := read (udp 5 false false 1028 1028) (payload 100) 250
                [mk (SOCKET_ERROR EMSGSIZE)] in
  result o = Threw (ByValue DatagramLimitException) /\
  b_size (buffer o) = 1000.
Proof. vm_compute. split; reflexivity. Qed.

Example read_success_shrinks_to_42 :
  let o := read (udp 5 false false 1028 1028) (payload 100) 250
                [mk (SysOk 42)] in
  result o = Returned true /\ b_size (buffer o) = 42 /\ i (buffer o) = 42.
Proof. vm_compute. repeat split; reflexivity. Qed.

(** ** Members a computation does not touch *)

Section Keeps.

Context {B : Type} (f : UdpTransceiver -> B).

Lemma keeps_ret {A} (a : A) : keeps f (ret a).
Proof. intros t eff. reflexivity. Qed.

Lemma keeps_bind {A C} (m : M A) (k : A -> M C) :
  keeps f m -> (forall a, keeps f (k a)) -> keeps f (bind m k).
Proof.
  intros Hm Hk t eff. unfold bind. specialize (Hm t eff).
  destruct (m t eff) as [[[a|x] t'] eff']; cbn in *.
  - now rewrite Hk.
  - exact Hm.
Qed.

Lemma keeps_get : keeps f get.
Proof. intros t eff. reflexivity. Qed.

Lemma keeps_emit e : keeps f (emit e).
Proof. intros t eff. reflexivity. Qed.

Lemma keeps_call os c : keeps f (call os c).
Proof. intros t eff. unfold call. now destruct (fails os c). Qed.

Lemma keeps_whenM c m : keeps f m -> keeps f (whenM c m).
Proof. intros H. destruct c; [ exact H | apply keeps_ret ]. Qed.

Lemma keeps_modify g : (forall t, f (g t) = f t) -> keeps f (modify g).
Proof. intros H t eff. apply H. Qed.

Lemma keeps_try body handler :
  keeps f body -> keeps f handler -> keeps f (try_catch_rethrow body handler).
Proof.
  intros Hb Hh t eff. unfold try_catch_rethrow. specialize (Hb t eff).
  destruct (body t eff) as [[[a|x] t'] eff']; cbn in *; [ exact Hb | ].
  specialize (Hh t' eff').
  destruct (handler t' eff') as [[[a|y] t''] eff'']; cbn in *; congruence.
Qed.

End Keeps.

Ltac keeps_tac :=
  repeat first
    [ apply keeps_bind; [ | intros ? ]
    | apply keeps_ret | apply keeps_get | apply keeps_emit
    | apply keeps_call | apply keeps_whenM
    | apply keeps_modify; intros []; reflexivity ].

Lemma setBufSize_keeps_connect os inst : keeps _connect (setBufSize os inst).
Proof.
  unfold setBufSize, setBufSize_dir. keeps_tac.
  all: try (destruct (_ <? _udpOverhead); keeps_tac).
Qed.

Lemma createSocket_keeps_connect os : keeps _connect (createSocket_ os).
Proof.
  intros t eff. unfold createSocket_. now destruct (fails os _).
Qed.

Lemma bind_ctor_keeps_connect os inst port mi connect :
  _connect (snd (fst (UdpTransceiver_bind os inst port mi connect)))
  = connect.
Proof.
  unfold UdpTransceiver_bind.
  rewrite (keeps_try _connect); [ reflexivity | | ].
  - unfold bind_ctor_body.
    apply keeps_bind; [ apply keeps_call | intros ? ].
    apply keeps_bind; [ apply keeps_modify; intros []; reflexivity | intros ? ].
    apply keeps_bind; [ apply createSocket_keeps_connect | intros ? ].
    apply keeps_bind; [ apply setBufSize_keeps_connect | intros ? ].
    keeps_tac.
    match goal with |- keeps _ (if ?c then _ else _) => destruct c end;
      keeps_tac.
  - apply keeps_modify. intros []; reflexivity.
Qed.

(** ** Connecting to the first peer *)

Lemma observe_connect t r : _connect (observe t r) = _connect t.
Proof. reflexivity. Qed.

Lemma write_from_self t buf timeout os :
  forall l eff, self (write_from t buf timeout l os eff) = t.
Proof.
  induction os as [|r os IH]; intros l eff; destruct l; cbn [write_from].
  - reflexivity.
  - destruct (timeout =? 0); reflexivity.
  - destruct (rv r) as [e|n]; [ | reflexivity ].
    destruct (interrupted e); [ apply IH | ].
    destruct (wouldBlock e); [ apply IH | reflexivity ].
  - destruct (timeout =? 0); [ reflexivity | ].
    destruct (rv r) as [e|n].
    + destruct (interrupted e); [ apply IH | reflexivity ].
    + destruct n; [ reflexivity | apply IH ].
Qed.

Lemma write_self t buf timeout os : self (write t buf timeout os) = t.
Proof.
  unfold write. destruct (sndPacketSize t <? to_int (b_size buf));
    [ reflexivity | apply write_from_self ].
Qed.

(** [_connect] after a [read]: cleared by success, untouched otherwise. *)
Lemma read_from_connect buf timeout :
  forall os t l eff,
    let o := read_from t buf timeout l os eff in
    _connect (self o) =
    match result o with Returned true => false | _ => _connect t end.
Proof.
  induction os as [|r os IH]; intros t l eff; cbv zeta.
  - destruct l; cbn [read_from];
      [ destruct (_shutdownReadWrite t) | ]; reflexivity.
  - destruct l; cbn [read_from].
    + destruct (_shutdownReadWrite t); [ reflexivity | ].
      destruct (rv r) as [e|n].
      * unfold on_recv_error.
        destruct (interrupted e); [ apply (IH (observe t r)) | ].
        destruct (wouldBlock e).
        { destruct (timeout =? 0);
            [ reflexivity | apply (IH (observe t r)) ]. }
        destruct (recvTruncated e); reflexivity.
      * rewrite observe_connect.
        destruct (_connect t) eqn:Hc; [ | cbn; now rewrite Hc ].
        destruct (connect_exn r); [ cbn; now rewrite Hc | reflexivity ].
    + destruct (rv r) as [e|n].
      * destruct (interrupted e);
          [ apply (IH (observe t r)) | reflexivity ].
      * destruct n; [ reflexivity | apply (IH (observe t r)) ].
Qed.

(** A successful [read] of a transceiver that must connect has connected
    the socket to the sender of the datagram it received. *)
Lemma read_from_connects buf timeout :
  forall os t l eff,
    _connect t = true ->
    let o := read_from t buf timeout l os eff in
    result o = Returned true ->
    exists r n, In r os /\ rv r = SysOk n /\
                In (Sys (doConnect (_fd t) (peer r))) (effects o).
Proof.
  induction os as [|r os IH]; intros t l eff Hc; cbv zeta.
  - destruct l; cbn [read_from];
      [ destruct (_shutdownReadWrite t) | ]; discriminate.
  - assert (Hnext : forall l' eff',
              result (read_from (observe t r) buf timeout l' os eff')
                = Returned true ->
              exists r0 n, In r0 (r :: os) /\ rv r0 = SysOk n /\
                In (Sys (doConnect (_fd t) (peer r0)))
                   (effects (read_from (observe t r) buf timeout l' os eff'))).
    { intros l' eff' H.
      destruct (IH (observe t r) l' eff' Hc H) as (r0 & n & Hin & Hr & He).
      exists r0, n. split; [ now right | now split ]. }
    destruct l; cbn [read_from].
    + destruct (_shutdownReadWrite t); [ discriminate | ].
      destruct (rv r) as [e|n] eqn:Hr.
      * unfold on_recv_error.
        destruct (interrupted e); [ apply Hnext | ].
        destruct (wouldBlock e).
        { destruct (timeout =? 0); [ discriminate | apply Hnext ]. }
        destruct (recvTruncated e); discriminate.
      * rewrite observe_connect, Hc.
        destruct (connect_exn r); [ discriminate | ].
        intros _. exists r, n. split; [ now left | split; [ exact Hr | ] ].
        unfold read_success; cbn [effects].
        rewrite !in_app_iff. left. left. right. now left.
    + destruct (rv r) as [e|n].
      * destruct (interrupted e); [ apply Hnext | discriminate ].
      * destruct n; [ discriminate | apply Hnext ].
Qed.

(** C5: an inbound transceiver constructed with the connect flag set has
    [_connect] set; a [read] that succeeds connects the socket to the
    sender of the datagram and clears [_connect], and a [read] that does
    not succeed leaves it as it was; [write], [close], [shutdownWrite] and
    [shutdownReadWrite] leave it as it was.  So [_connect] is set until the
    first successful receive and no operation sets it again. *)
Theorem pendingConnect_one_way :
  (forall os inst port mcastInterface,
     _connect (snd (fst (UdpTransceiver_bind os inst port mcastInterface
                                             true))) = true) /\
  (forall t buf timeout os,
     let o := read t buf timeout os in
     _connect (self o) =
       match result o with Returned true => false | _ => _connect t end /\
     (_connect t = true -> result o = Returned true ->
      exists r n, In r os /\ rv r = SysOk n /\
                  In (Sys (doConnect (_fd t) (peer r))) (effects o))) /\
  (forall t buf timeout os,
     _connect (self (write t buf timeout os)) = _connect t) /\
  (forall t,
     _connect (fst (close t)) = _connect t /\
     _connect (fst (shutdownWrite t)) = _connect t /\
     _connect (fst (shutdownReadWrite t)) = _connect t).
Proof.
  split; [ | split; [ | split ] ].
  - intros. apply bind_ctor_keeps_connect.
  - intros t buf timeout os o. subst o. unfold read.
    destruct (rcvPacketSize t <? to_int (b_size buf)).
    + split; [ reflexivity | discriminate ].
    + split.
      * apply (read_from_connect _ timeout os t Repeat []).
      * intros Hc. apply (read_from_connects _ timeout os t Repeat [] Hc).
  - intros. now rewrite write_self.
  - intros t. repeat split.
Qed.

Lemma pendingConnect_one_way_witness :
  let t := udp 5 true false 1028 1028 in
  let first := mkReply (SysOk 42) (fun _ => 0) 77 None false in
  let o := read t (payload 100) 250 [first] in
  _connect (self o) = false /\
  exists r n, In r [first] /\ rv r = SysOk n /\
              In (Sys (doConnect 5 (peer r))) (effects o).
Proof.
  cbv zeta.
  destruct pendingConnect_one_way as [_ [R _]].
  destruct (R (udp 5 true false 1028 1028) (payload 100) 250
              [mkReply (SysOk 42) (fun _ => 0) 77 None false]) as [A B].
  split.
  - exact A.
  - apply B; reflexivity.
Defined.

Example bind_ctor_pending :
  let '(r, t, eff) := UdpTransceiver_bind os_ok inst0 9000 EmptyString true in
  r = Ok tt /\ _connect t = true /\ _fd t = 7.
Proof. vm_compute. repeat split; reflexivity. Qed.

(** ** Failure during construction *)

Lemma open_sockets_app eff1 :
  forall eff2 acc,
    open_sockets (eff1 ++ eff2) acc = open_sockets eff2 (open_sockets eff1 acc).
Proof.
  induction eff1 as [|e eff1 IH]; intros eff2 acc; [ reflexivity | ].
  destruct e as [c| | | | |]; cbn; try apply IH.
  destruct c; cbn; apply IH.
Qed.

Lemma open_sockets_neutral eff :
  forall acc,
    forallb (fun e => negb (creates e || closes e)) eff = true ->
    open_sockets eff acc = acc.
Proof.
  induction eff as [|e eff IH]; intros acc H; [ reflexivity | ].
  cbn [forallb] in H. apply andb_prop in H as [He H].
  destruct e as [c| | | | |]; cbn; try now apply IH.
  destruct c; cbn in *; try discriminate; now apply IH.
Qed.




Section Releasing.

Variables (os : OS) (fd : Z).








End Releasing.







(** Connect mode when the connect to the target is refused: the failure
    reaches the caller, the handle is invalid and socket 7 is closed. *)
Example connect_refused_releases_socket :
  let '(r, t, eff) :=
    UdpTransceiver_connect os_connect_refused inst0 9000 EmptyString (-1) in
  r = Raise (ConnectFailedException (EOTHER 111)) /\
  _fd t = INVALID_SOCKET /\
  eff = [Sys (createSocket 7); Sys (getBufferSize true 7);
         Sys (getBufferSize false 7); Sys (setBlock 7 false);
         Sys (doConnect 7 9000); Sys (closeSocket 7)] /\
  open_sockets eff [] = [].
Proof. vm_compute. repeat split; reflexivity. Qed.

(** What the file itself does when a constructor body throws (lines
    464-468, 555-559): it invalidates the handle and rethrows. *)
Lemma try_handler_invalidates body t eff :
  match try_catch_rethrow body ctor_handler t eff with
  | (Raise _, t', _) => _fd t' = INVALID_SOCKET
  | (Ok _, _, _) => True
  end.
Proof.
  unfold try_catch_rethrow.
  destruct (body t eff) as [[[a|x] t'] eff']; [ exact I | reflexivity ].
Qed.

(** ** Buffer sizes *)

(** C7, as stated, fails: when the OS default is 16 bytes and no override
    is configured, the sizes stored are 16, below the 28 bytes of
    overhead. *)
Lemma setBufSize_floor_counterexample :
  let '(r, t, _) := setBufSize os_small inst0 (udp 7 false false 0 0) [] in
  r = Ok tt /\ _rcvSize t = 16 /\ _sndSize t = 16 /\
  _rcvSize t < _udpOverhead.
Proof. vm_compute. repeat split; reflexivity. Qed.

Lemma get_set_size receive sz t : get_size receive (set_size receive sz t) = sz.
Proof. now destruct receive. Qed.

Lemma get_set_size_other receive sz t :
  get_size (negb receive) (set_size receive sz t) = get_size (negb receive) t.
Proof. now destruct receive. Qed.

Lemma set_size_fd receive sz t : _fd (set_size receive sz t) = _fd t.
Proof. now destruct receive. Qed.

(** One direction of the negotiation, when no call fails. *)
Lemma setBufSize_dir_spec os inst receive t eff :
  (forall c, fails os c = None) ->
  let '(r, t', eff') := setBufSize_dir os inst receive t eff in
  r = Ok tt /\
  get_size receive t' =
    spec_negotiated_size os receive (override_of inst receive) /\
  get_size (negb receive) t' = get_size (negb receive) t /\
  _fd t' = _fd t /\
  eff' = eff ++ spec_negotiation_effects os receive (_fd t)
                  (override_of inst receive).
Proof.
  intros Hf.
  unfold setBufSize_dir, spec_negotiated_size, spec_negotiation_effects,
    bind, call, get, modify, emit, whenM, ret, getPropertyAsIntWithDefault.
  rewrite !Hf.
  change (if receive then Ice_UDP_RcvSize inst else Ice_UDP_SndSize inst)
    with (override_of inst receive).
  change _udpOverhead with 28.
  destruct (override_of inst receive) as [v|].
  - destruct (v <? 28) eqn:Hv; cbn [negb].
    + rewrite Z.eqb_refl. cbn [negb].
      rewrite get_set_size, get_set_size_other, set_size_fd.
      repeat split; try now rewrite <- ?app_assoc, ?app_nil_r.
    + destruct (v =? dflt os receive) eqn:Hd; cbn [negb].
      * rewrite get_set_size, get_set_size_other, set_size_fd.
        repeat split; try now rewrite ?app_nil_r.
      * rewrite !Hf.
        destruct (applied os receive v <? v); cbn [app];
          rewrite get_set_size, get_set_size_other, get_set_size_other,
            !set_size_fd;
          repeat split; try now rewrite <- ?app_assoc.
  - destruct (dflt os receive <? 28); rewrite Z.eqb_refl; cbn [negb];
      rewrite get_set_size, get_set_size_other, set_size_fd;
      repeat split; try now rewrite <- ?app_assoc, ?app_nil_r.
Qed.

Lemma spec_negotiated_floor os receive override :
  28 <= dflt os receive ->
  (forall v, 28 <= applied os receive v) ->
  28 <= spec_negotiated_size os receive override.
Proof.
  intros Hd Ha. unfold spec_negotiated_size.
  destruct override as [v|]; [ | exact Hd ].
  destruct (v <? 28); [ exact Hd | ].
  destruct (v =? dflt os receive); [ exact Hd | apply Ha ].
Qed.

(** C7, amended: when no call fails, [setBufSize] stores for each
    direction, independently of the other, the OS default when the
    override is absent, below 28 (then with a warning) or equal to the
    default, and otherwise requests the override from the OS and stores
    the size read back, with a warning when that is smaller than
    requested.  The stored sizes are at least 28 when the sizes the OS
    reports (default and applied) are at least 28. *)
Theorem buffer_size_negotiation os inst t :
  (forall c, fails os c = None) ->
  let '(r, t', eff) := setBufSize os inst t [] in
  r = Ok tt /\
  _rcvSize t' = spec_negotiated_size os true (Ice_UDP_RcvSize inst) /\
  _sndSize t' = spec_negotiated_size os false (Ice_UDP_SndSize inst) /\
  eff = spec_negotiation_effects os true (_fd t) (Ice_UDP_RcvSize inst)
        ++ spec_negotiation_effects os false (_fd t) (Ice_UDP_SndSize inst) /\
  ((forall d, 28 <= dflt os d) -> (forall d v, 28 <= applied os d v) ->
   28 <= _rcvSize t' /\ 28 <= _sndSize t').
Proof.
  intros Hf. unfold setBufSize, bind.
  pose proof (setBufSize_dir_spec os inst true t [] Hf) as H1.
  destruct (setBufSize_dir os inst true t []) as [[r1 t1] eff1].
  destruct H1 as (-> & Hr1 & Hs1 & Hfd1 & ->).
  pose proof (setBufSize_dir_spec os inst false t1
                ([] ++ spec_negotiation_effects os true (_fd t)
                         (override_of inst true)) Hf) as H2.
  destruct (setBufSize_dir os inst false t1 _) as [[r2 t2] eff2].
  destruct H2 as (-> & Hs2 & Hr2 & Hfd2 & ->).
  cbn [get_size negb override_of app] in *.
  assert (Hrcv : _rcvSize t2 =
                 spec_negotiated_size os true (Ice_UDP_RcvSize inst))
    by congruence.
  repeat split.
  - exact Hrcv.
  - exact Hs2.
  - now rewrite Hfd1.
  - rewrite Hrcv. now apply spec_negotiated_floor.
  - rewrite Hs2. now apply spec_negotiated_floor.
Qed.

Lemma buffer_size_negotiation_witness :
  let inst := mkInstance 0 false 0 (Some 10) (Some 131072) in
  let os := mkOS (fun _ => None) 7 9000 (fun _ => false) (fun _ => 65536)
                 (fun _ z => Z.max 2304 (Z.min z 100000))
                 (udp 0 false false 0 0) in
  let '(r, t', eff) := setBufSize os inst (udp 7 false false 0 0) [] in
  r = Ok tt /\
  _rcvSize t' = 65536 /\
  _sndSize t' = 100000 /\
  eff = [Sys (getBufferSize true 7); Warn (WarnInvalidSize true 10 65536);
         Sys (getBufferSize false 7); Sys (setBufferSize false 7 131072);
         Sys (getBufferSize false 7);
         Warn (WarnAdjusted false 131072 100000)] /\
  28 <= _rcvSize t' /\ 28 <= _sndSize t'.
Proof.
  cbv zeta.
  pose proof (buffer_size_negotiation
                (mkOS (fun _ => None) 7 9000 (fun _ => false)
                      (fun _ => 65536)
                      (fun _ z => Z.max 2304 (Z.min z 100000))
                      (udp 0 false false 0 0))
                (mkInstance 0 false 0 (Some 10) (Some 131072))
                (udp 7 false false 0 0) (fun _ => eq_refl)) as H.
  destruct (setBufSize _ _ _ _) as [[r t'] eff].
  destruct H as (Hr & Hrcv & Hsnd & Heff & Hfloor).
  repeat split; try assumption.
  - apply Hfloor; intros; simpl; lia.
  - apply Hfloor; intros; simpl; lia.
Defined.

(** * Further properties *)

(** ** write *)

Lemma Forall_snoc {A} (P : A -> Prop) (xs : list A) (x : A) :
  Forall P xs -> P x -> Forall P (xs ++ [x]).
Proof.
  intros H Hx. apply Forall_app. split; [ exact H | ].
  constructor; [ exact Hx | constructor ].
Qed.

Lemma Forall_when (P : effect -> Prop) (xs : list effect) c e :
  Forall P xs -> P e -> Forall P (xs ++ when c e).
Proof.
  intros H He. destruct c; cbn; [ now apply Forall_snoc | ].
  now rewrite app_nil_r.
Qed.

Lemma write_from_calls t buf timeout os :
  forall l eff,
    Forall (write_call_ok t buf timeout) eff ->
    Forall (write_call_ok t buf timeout)
           (effects (write_from t buf timeout l os eff)).
Proof.
  induction os as [|r os IH]; intros l eff H; destruct l; cbn [write_from].
  - apply Forall_snoc; [ exact H | now split ].
  - destruct (Z.eqb_spec timeout 0) as [Ht|Ht]; cbn; [ exact H | ].
    apply Forall_snoc; [ exact H | now repeat split ].
  - assert (H1 : Forall (write_call_ok t buf timeout)
                   (eff ++ [Sys (sys_send (_fd t) (b_size buf))])).
    { apply Forall_snoc; [ exact H | now split ]. }
    destruct (rv r) as [e|n].
    + destruct (interrupted e); [ now apply IH | ].
      destruct (wouldBlock e); [ now apply IH | exact H1 ].
    + cbn [effects]. rewrite app_assoc.
      apply Forall_when; [ | exact I ].
      apply Forall_when; [ exact H1 | exact I ].
  - destruct (Z.eqb_spec timeout 0) as [Ht|Ht]; cbn [effects]; [ exact H | ].
    assert (H1 : Forall (write_call_ok t buf timeout)
                   (eff ++ [Sys (sys_poll (_fd t) POLLOUT timeout)])).
    { apply Forall_snoc; [ exact H | now repeat split ]. }
    destruct (rv r) as [e|k].
    + destruct (interrupted e); [ now apply IH | exact H1 ].
    + destruct k; [ exact H1 | now apply IH ].
Qed.

Lemma write_from_no_trace t buf timeout os :
  network t < 3 ->
  forall l eff,
    existsb is_trace (effects (write_from t buf timeout l os eff)) =
    existsb is_trace eff.
Proof.
  intros Hn.
  assert (Hcall : forall eff c,
            existsb is_trace (eff ++ [Sys c]) = existsb is_trace eff).
  { intros. rewrite existsb_app. cbn. now rewrite orb_false_r. }
  assert (Hlvl : (3 <=? network t) = false) by (apply Z.leb_gt; exact Hn).
  induction os as [|r os IH]; intros l eff; destruct l; cbn [write_from].
  - apply Hcall.
  - destruct (timeout =? 0); cbn [effects]; [ reflexivity | apply Hcall ].
  - destruct (rv r) as [e|n].
    + destruct (interrupted e); [ now rewrite IH | ].
      destruct (wouldBlock e); [ now rewrite IH | apply Hcall ].
    + cbn [effects]. rewrite Hlvl, !existsb_app. cbn.
      destruct (_stats t); cbn; now rewrite ?orb_false_r.
  - destruct (timeout =? 0); [ reflexivity | ].
    destruct (rv r) as [e|n].
    + destruct (interrupted e); [ now rewrite IH | apply Hcall ].
    + destruct n; [ apply Hcall | now rewrite IH ].
Qed.

(** X1: with a trace level below 3 a [write] runs no trace statement (so
    [toString()] is never evaluated), and every system call it makes is a
    send of the whole payload on the transceiver's descriptor or a wait
    for writability on it with the caller's timeout; it never waits when
    the timeout is 0, and it makes no other system call. *)
Theorem write_calls t buf timeout os :
  network t < 3 ->
  existsb is_trace (effects (write t buf timeout os)) = false /\
  Forall (write_call_ok t buf timeout) (effects (write t buf timeout os)).
Proof.
  intros Hn. unfold write.
  destruct (sndPacketSize t <? to_int (b_size buf)).
  - cbn. split; [ reflexivity | repeat constructor ].
  - split.
    + now rewrite write_from_no_trace.
    + apply write_from_calls. constructor.
Qed.

Lemma write_calls_witness :
  let o := write (udp 5 false false 1028 1028) (payload 100) 250
                 [mk (SOCKET_ERROR EWOULDBLOCK); mk (SysOk 1);
                  mk (SysOk 100)] in
  existsb is_trace (effects o) = false /\
  Forall (write_call_ok (udp 5 false false 1028 1028) (payload 100) 250)
         (effects o).
Proof.
  apply (write_calls (udp 5 false false 1028 1028) (payload 100) 250
           [mk (SOCKET_ERROR EWOULDBLOCK); mk (SysOk 1); mk (SysOk 100)]).
  simpl. lia.
Defined.

Lemma write_from_buffer t buf timeout os :
  forall l eff,
    let o := write_from t buf timeout l os eff in
    buffer o = if succeeded o then set_i buf (b_size buf) else buf.
Proof.
  induction os as [|r os IH]; intros l eff; destruct l; cbn [write_from].
  - reflexivity.
  - destruct (timeout =? 0); reflexivity.
  - destruct (rv r) as [e|n]; [ | reflexivity ].
    destruct (interrupted e); [ apply IH | ].
    destruct (wouldBlock e); [ apply IH | reflexivity ].
  - destruct (timeout =? 0); [ reflexivity | ].
    destruct (rv r) as [e|n].
    + destruct (interrupted e); [ apply IH | reflexivity ].
    + destruct n; [ reflexivity | apply IH ].
Qed.

(** X2: [write] never changes the transceiver; it leaves the payload and
    its length as they were, and moves the position of the buffer to the
    end exactly when it returns true. *)
Theorem write_frame t buf timeout os :
  let o := write t buf timeout os in
  self o = t /\
  buffer o = if succeeded o then set_i buf (b_size buf) else buf.
Proof.
  cbv zeta. split; [ apply write_self | ]. unfold write.
  destruct (sndPacketSize t <? to_int (b_size buf));
    [ reflexivity | apply write_from_buffer ].
Qed.

Lemma write_from_not_ready t buf timeout os :
  forall l eff,
    result (write_from t buf timeout l os eff) = Returned false ->
    timeout = 0.
Proof.
  induction os as [|r os IH]; intros l eff; destruct l; cbn [write_from].
  - discriminate.
  - destruct (Z.eqb_spec timeout 0) as [Ht|Ht]; [ easy | discriminate ].
  - destruct (rv r) as [e|n]; [ | discriminate ].
    destruct (interrupted e); [ apply IH | ].
    destruct (wouldBlock e); [ apply IH | discriminate ].
  - destruct (Z.eqb_spec timeout 0) as [Ht|Ht]; [ easy | ].
    destruct (rv r) as [e|n].
    + destruct (interrupted e); [ apply IH | discriminate ].
    + destruct n; [ discriminate | apply IH ].
Qed.

Lemma read_from_not_ready buf timeout os :
  forall t l eff,
    result (read_from t buf timeout l os eff) = Returned false ->
    timeout = 0.
Proof.
  induction os as [|r os IH]; intros t l eff; destruct l; cbn [read_from].
  - destruct (_shutdownReadWrite t); discriminate.
  - discriminate.
  - destruct (_shutdownReadWrite t); [ discriminate | ].
    destruct (rv r) as [e|n].
    + unfold on_recv_error.
      destruct (interrupted e); [ apply IH | ].
      destruct (wouldBlock e).
      * destruct (Z.eqb_spec timeout 0) as [Ht|Ht]; [ easy | apply IH ].
      * destruct (recvTruncated e); discriminate.
    + destruct (_connect (observe t r));
        [ destruct (connect_exn r) | ]; discriminate.
  - destruct (rv r) as [e|n].
    + destruct (interrupted e); [ apply IH | discriminate ].
    + destruct n; [ discriminate | apply IH ].
Qed.

(** X3: [write] and [read] return false (not ready) only to a caller that
    passed the timeout 0: with any other timeout the call returns true,
    throws or is still in progress. *)
Theorem not_ready_only_without_timeout t buf timeout os :
  timeout <> 0 ->
  result (write t buf timeout os) <> Returned false /\
  result (read t buf timeout os) <> Returned false.
Proof.
  intros Ht. unfold write, read. split.
  - destruct (sndPacketSize t <? to_int (b_size buf)); [ discriminate | ].
    intros H. now apply write_from_not_ready in H.
  - destruct (rcvPacketSize t <? to_int (b_size buf)); [ discriminate | ].
    intros H. now apply read_from_not_ready in H.
Qed.

Lemma not_ready_only_without_timeout_witness :
  let t := udp 5 false false 1028 1028 in
  let os := [mk (SOCKET_ERROR EWOULDBLOCK)] in
  result (write t (payload 100) 250 os) <> Returned false /\
  result (read t (payload 100) 250 os) <> Returned false.
Proof.
  apply (not_ready_only_without_timeout (udp 5 false false 1028 1028)
           (payload 100) 250 [mk (SOCKET_ERROR EWOULDBLOCK)]).
  discriminate.
Defined.

(** ** Statistics and warnings *)

Lemma existsb_when (f : effect -> bool) c e :
  existsb f (when c e) = c && f e.
Proof. destruct c; cbn; [ apply orb_false_r | reflexivity ]. Qed.

Lemma write_from_stats t buf timeout os :
  forall l eff,
    let o := write_from t buf timeout l os eff in
    existsb is_bytes_sent (effects o) =
    existsb is_bytes_sent eff || (succeeded o && _stats t).
Proof.
  induction os as [|r os IH]; intros l eff; destruct l; cbn [write_from].
  - cbn. now rewrite existsb_snoc, !orb_false_r.
  - destruct (timeout =? 0); cbn; now rewrite ?existsb_snoc, !orb_false_r.
  - destruct (rv r) as [e|n].
    + destruct (interrupted e);
        [ cbv zeta in IH; rewrite IH, existsb_snoc; cbn;
          now rewrite orb_false_r | ].
      destruct (wouldBlock e);
        [ cbv zeta in IH; rewrite IH, existsb_snoc; cbn;
          now rewrite orb_false_r | ].
      cbn. now rewrite existsb_snoc, !orb_false_r.
    + cbn. rewrite !existsb_app, !existsb_when. cbn.
      now rewrite !andb_false_r, !orb_false_r, andb_true_r.
  - destruct (timeout =? 0); [ cbn; now rewrite !orb_false_r | ].
    destruct (rv r) as [e|n].
    + destruct (interrupted e);
        [ cbv zeta in IH; rewrite IH, existsb_snoc; cbn;
          now rewrite orb_false_r | ].
      cbn. now rewrite existsb_snoc, !orb_false_r.
    + destruct n;
        [ cbn; now rewrite existsb_snoc, !orb_false_r | ].
      cbv zeta in IH. rewrite IH, existsb_snoc. cbn.
      now rewrite orb_false_r.
Qed.

Lemma read_from_stats buf timeout os :
  forall t l eff,
    let o := read_from t buf timeout l os eff in
    existsb is_bytes_received (effects o) =
    existsb is_bytes_received eff || (succeeded o && _stats t).
Proof.
  assert (Hcall : forall eff c,
            existsb is_bytes_received (eff ++ [Sys c]) =
            existsb is_bytes_received eff).
  { intros. rewrite existsb_snoc. apply orb_false_r. }
  assert (Hok : forall t' ret eff' b,
            existsb is_bytes_received
              (effects (read_success t' b ret eff')) =
            existsb is_bytes_received eff'
            || (succeeded (read_success t' b ret eff') && _stats t')).
  { intros. unfold read_success, succeeded. cbn [effects result].
    rewrite !existsb_app, !existsb_when. cbn.
    rewrite andb_false_r, andb_true_r. reflexivity. }
  assert (Hend : forall s eff' eff'' t' b c,
            s <> Returned true ->
            existsb is_bytes_received eff' =
            existsb is_bytes_received eff'
            || (succeeded (mkOutcome s eff'' t' b) && c)).
  { intros s eff' eff'' t' b c Hs. unfold succeeded. cbn [result].
    destruct s as [[|]| |]; try congruence; cbn; now rewrite orb_false_r. }
  induction os as [|r os IH]; intros t l eff; cbv zeta in *;
    destruct l; cbn [read_from].
  - destruct (_shutdownReadWrite t); cbn [effects];
      rewrite ?Hcall; now apply Hend.
  - cbn [effects]. rewrite Hcall. now apply Hend.
  - destruct (_shutdownReadWrite t); [ now apply Hend | ].
    destruct (rv r) as [e|n].
    + unfold on_recv_error.
      destruct (interrupted e); [ now rewrite IH, Hcall | ].
      destruct (wouldBlock e).
      { destruct (timeout =? 0); [ | now rewrite IH, Hcall ].
        cbn [effects]. rewrite app_nil_r, Hcall. now apply Hend. }
      destruct (recvTruncated e); cbn [effects].
      * rewrite existsb_app, existsb_when, Hcall. cbn [is_bytes_received].
        rewrite andb_false_r, orb_false_r. now apply Hend.
      * rewrite app_nil_r, Hcall. now apply Hend.
    + destruct (_connect (observe t r)).
      * destruct (connect_exn r).
        -- cbn [effects]. rewrite !Hcall. now apply Hend.
        -- rewrite Hok, existsb_app, existsb_when, !Hcall.
           cbn [is_bytes_received].
           now rewrite andb_false_r, orb_false_r.
      * now rewrite Hok, Hcall.
  - destruct (rv r) as [e|n].
    + destruct (interrupted e); [ now rewrite IH, Hcall | ].
      cbn [effects]. rewrite Hcall. now apply Hend.
    + destruct n; [ cbn [effects]; rewrite Hcall; now apply Hend | ].
      now rewrite IH, Hcall.
Qed.

(** X4: the statistics sink is told of sent bytes exactly when a [write]
    returns true and of received bytes exactly when a [read] returns true,
    and only when a sink is configured; a call that throws, is not ready
    or is still in progress records nothing. *)
Theorem statistics_only_on_success t buf timeout os :
  existsb is_bytes_sent (effects (write t buf timeout os)) =
    succeeded (write t buf timeout os) && _stats t /\
  existsb is_bytes_received (effects (read t buf timeout os)) =
    succeeded (read t buf timeout os) && _stats t.
Proof.
  unfold write, read. split.
  - destruct (sndPacketSize t <? to_int (b_size buf)); [ reflexivity | ].
    apply (write_from_stats t buf timeout os Repeat []).
  - destruct (rcvPacketSize t <? to_int (b_size buf)).
    + cbn. now destruct (_warn t).
    + apply (read_from_stats _ timeout os t Repeat []).
Qed.

(** ** read *)

Lemma read_from_calls buf timeout :
  forall os t l eff,
    Forall (read_call_ok t) eff ->
    Forall (read_call_ok t) (effects (read_from t buf timeout l os eff)).
Proof.
  assert (Hrecv : forall t eff,
            Forall (read_call_ok t) eff ->
            Forall (read_call_ok t)
              (eff ++ [Sys (if _connect t
                            then sys_recvfrom (_fd t) (rcvPacketSize t)
                            else sys_recv (_fd t) (rcvPacketSize t))])).
  { intros t eff H. apply Forall_snoc; [ exact H | ].
    destruct (_connect t) eqn:Hc; cbn; rewrite Hc; now repeat split. }
  assert (Hpoll : forall t eff,
            Forall (read_call_ok t) eff ->
            Forall (read_call_ok t)
              (eff ++ [Sys (sys_poll (_fd t) POLLIN (-1))])).
  { intros t eff H. apply Forall_snoc; [ exact H | now split ]. }
  induction os as [|r os IH]; intros t l eff H; destruct l; cbn [read_from].
  - destruct (_shutdownReadWrite t); cbn [effects];
      [ exact H | now apply Hrecv ].
  - now apply Hpoll.
  - destruct (_shutdownReadWrite t); cbn [effects]; [ exact H | ].
    specialize (Hrecv t eff H).
    destruct (rv r) as [e|n].
    + unfold on_recv_error.
      destruct (interrupted e); [ exact (IH (observe t r) _ _ Hrecv) | ].
      destruct (wouldBlock e).
      { destruct (timeout =? 0); cbn [effects];
          [ now rewrite app_nil_r | exact (IH (observe t r) _ _ Hrecv) ]. }
      destruct (recvTruncated e); cbn [effects].
      * now apply Forall_when.
      * now rewrite app_nil_r.
    + rewrite observe_connect. destruct (_connect t) eqn:Hc.
      * assert (Hcon : Forall (read_call_ok t)
                         ((eff ++ [Sys (sys_recvfrom (_fd t)
                                          (rcvPacketSize t))])
                          ++ [Sys (doConnect (_fd t) (peer r))])).
        { apply Forall_snoc; [ exact Hrecv | ]. cbn. now split. }
        destruct (connect_exn r); cbn [effects]; [ exact Hcon | ].
        unfold read_success. cbn [effects]. rewrite app_assoc.
        repeat apply Forall_when; try exact I. exact Hcon.
      * unfold read_success. cbn [effects]. rewrite app_assoc.
        repeat apply Forall_when; try exact I. exact Hrecv.
  - specialize (Hpoll t eff H).
    destruct (rv r) as [e|n].
    + destruct (interrupted e);
        [ exact (IH (observe t r) _ _ Hpoll) | exact Hpoll ].
    + destruct n; [ exact Hpoll | exact (IH (observe t r) _ _ Hpoll) ].
Qed.

Lemma read_from_no_trace buf timeout :
  forall os t l eff,
    network t < 1 ->
    existsb is_trace (effects (read_from t buf timeout l os eff)) =
    existsb is_trace eff.
Proof.
  assert (Hcall : forall eff c,
            existsb is_trace (eff ++ [Sys c]) = existsb is_trace eff).
  { intros. rewrite existsb_app. cbn. now rewrite orb_false_r. }
  assert (Hok : forall t' b ret eff',
            network t' < 1 ->
            existsb is_trace (effects (read_success t' b ret eff')) =
            existsb is_trace eff').
  { intros t' b ret eff' Hn. unfold read_success. cbn [effects].
    assert (Hlvl : (3 <=? network t') = false) by (apply Z.leb_gt; lia).
    rewrite Hlvl, !existsb_app. cbn.
    destruct (_stats t'); cbn; now rewrite ?orb_false_r. }
  induction os as [|r os IH]; intros t l eff Hn; destruct l;
    cbn [read_from].
  - destruct (_shutdownReadWrite t); cbn [effects];
      [ reflexivity | apply Hcall ].
  - apply Hcall.
  - destruct (_shutdownReadWrite t); [ reflexivity | ].
    destruct (rv r) as [e|n].
    + unfold on_recv_error.
      destruct (interrupted e);
        [ now rewrite (IH (observe t r)), Hcall | ].
      destruct (wouldBlock e).
      { destruct (timeout =? 0);
          [ | now rewrite (IH (observe t r)), Hcall ].
        cbn [effects]. now rewrite app_nil_r, Hcall. }
      destruct (recvTruncated e); cbn [effects].
      * rewrite existsb_app, Hcall.
        destruct (_warn (observe t r)); cbn; now rewrite ?orb_false_r.
      * now rewrite app_nil_r, Hcall.
    + destruct (_connect (observe t r)).
      * destruct (connect_exn r).
        -- cbn [effects]. now rewrite !Hcall.
        -- rewrite Hok by exact Hn.
           assert (Hlvl : (1 <=? network t) = false)
             by (apply Z.leb_gt; exact Hn).
           cbn [network set_connect observe set_shutdownReadWrite].
           rewrite Hlvl. cbn [when]. now rewrite app_nil_r, !Hcall.
      * rewrite Hok by exact Hn. apply Hcall.
  - destruct (rv r) as [e|n].
    + destruct (interrupted e);
        [ now rewrite (IH (observe t r)), Hcall | apply Hcall ].
    + destruct n; [ apply Hcall | now rewrite (IH (observe t r)), Hcall ].
Qed.

(** X5: with a trace level below 1 a [read] runs no trace statement (so
    [toString()] is never evaluated), and every system call it makes is a
    receive of the ceiling on the transceiver's descriptor ([recvfrom]
    when it must connect to the first peer, [recv] when it is connected),
    a wait for readability on it, or the connect of a transceiver that
    must connect; it never sends and never closes or shuts down the
    socket. *)
Theorem read_calls t buf timeout os :
  network t < 1 ->
  existsb is_trace (effects (read t buf timeout os)) = false /\
  Forall (read_call_ok t) (effects (read t buf timeout os)).
Proof.
  intros Hn. unfold read.
  destruct (rcvPacketSize t <? to_int (b_size buf)).
  - cbn. destruct (_warn t); cbn; split; try reflexivity;
      repeat constructor.
  - split.
    + now rewrite read_from_no_trace.
    + apply read_from_calls. constructor.
Qed.

Lemma read_calls_witness :
  let t := udp 5 true false 1028 1028 in
  let o := read t (payload 100) 250
                [mk (SOCKET_ERROR EWOULDBLOCK); mk (SysOk 1); abc] in
  existsb is_trace (effects o) = false /\
  Forall (read_call_ok t) (effects o).
Proof.
  apply (read_calls (udp 5 true false 1028 1028) (payload 100) 250
           [mk (SOCKET_ERROR EWOULDBLOCK); mk (SysOk 1); abc]).
  simpl. lia.
Defined.

Lemma write_from_no_interrupt t buf timeout os :
  forall l eff, surfaces_interrupt (write_from t buf timeout l os eff) = false.
Proof.
  induction os as [|r os IH]; intros l eff; destruct l; cbn [write_from].
  - reflexivity.
  - destruct (timeout =? 0); reflexivity.
  - destruct (rv r) as [e|n]; [ | reflexivity ].
    destruct (interrupted e) eqn:He; [ apply IH | ].
    destruct (wouldBlock e); [ apply IH | exact He ].
  - destruct (timeout =? 0); [ reflexivity | ].
    destruct (rv r) as [e|n].
    + destruct (interrupted e) eqn:He; [ apply IH | exact He ].
    + destruct n; [ reflexivity | apply IH ].
Qed.

Lemma read_from_no_interrupt buf timeout :
  forall os t l eff,
    _connect t = false ->
    surfaces_interrupt (read_from t buf timeout l os eff) = false.
Proof.
  induction os as [|r os IH]; intros t l eff Hc; destruct l;
    cbn [read_from].
  - destruct (_shutdownReadWrite t); reflexivity.
  - reflexivity.
  - destruct (_shutdownReadWrite t); [ reflexivity | ].
    destruct (rv r) as [e|n].
    + unfold on_recv_error.
      destruct (interrupted e) eqn:He; [ now apply IH | ].
      destruct (wouldBlock e).
      { destruct (timeout =? 0); [ reflexivity | now apply IH ]. }
      destruct (recvTruncated e); [ reflexivity | exact He ].
    + rewrite observe_connect, Hc. reflexivity.
  - destruct (rv r) as [e|n].
    + destruct (interrupted e) eqn:He; [ now apply IH | exact He ].
    + destruct n; [ reflexivity | now apply IH ].
Qed.

(** X6: an interrupted system call is never what a caller sees: no
    [write], and no [read] of a connected transceiver, ends with a
    SocketException that carries the error of an interruption. *)
Theorem interruption_never_thrown t buf timeout os :
  surfaces_interrupt (write t buf timeout os) = false /\
  (_connect t = false ->
   surfaces_interrupt (read t buf timeout os) = false).
Proof.
  unfold write, read. split.
  - destruct (sndPacketSize t <? to_int (b_size buf));
      [ reflexivity | apply write_from_no_interrupt ].
  - intros Hc. destruct (rcvPacketSize t <? to_int (b_size buf));
      [ reflexivity | now apply read_from_no_interrupt ].
Qed.

Lemma interruption_never_thrown_witness :
  let t := udp 5 false false 1028 1028 in
  let os := [mk (SOCKET_ERROR EINTR); mk (SOCKET_ERROR (EOTHER 104))] in
  surfaces_interrupt (write t (payload 100) 250 os) = false /\
  surfaces_interrupt (read t (payload 100) 250 os) = false.
Proof.
  cbv zeta.
  destruct (interruption_never_thrown (udp 5 false false 1028 1028)
              (payload 100) 250
              [mk (SOCKET_ERROR EINTR); mk (SOCKET_ERROR (EOTHER 104))])
    as [W R].
  split; [ exact W | apply R; reflexivity ].
Defined.

Lemma read_from_configuration buf timeout :
  forall os t l eff,
    same_configuration t (self (read_from t buf timeout l os eff)).
Proof.
  assert (Hrefl : forall t, same_configuration t t).
  { intros t. unfold same_configuration. now repeat split. }
  induction os as [|r os IH]; intros t l eff; destruct l; cbn [read_from].
  - destruct (_shutdownReadWrite t); apply Hrefl.
  - apply Hrefl.
  - destruct (_shutdownReadWrite t); [ apply Hrefl | ].
    destruct (rv r) as [e|n].
    + unfold on_recv_error.
      destruct (interrupted e); [ exact (IH (observe t r) _ _) | ].
      destruct (wouldBlock e).
      { destruct (timeout =? 0);
          [ exact (Hrefl (observe t r)) | exact (IH (observe t r) _ _) ]. }
      destruct (recvTruncated e); exact (Hrefl (observe t r)).
    + destruct (_connect (observe t r));
        [ destruct (connect_exn r) | ]; exact (Hrefl (observe t r)).
  - destruct (rv r) as [e|n].
    + destruct (interrupted e);
        [ exact (IH (observe t r) _ _) | exact (Hrefl (observe t r)) ].
    + destruct n;
        [ exact (Hrefl (observe t r)) | exact (IH (observe t r) _ _) ].
Qed.

(** X7: of the transceiver, a [read] changes nothing but the two flags
    [_connect] and [_shutdownReadWrite]: the descriptor, the address, the
    buffer sizes, the warning and statistics settings stay as they
    were. *)
Theorem read_frame t buf timeout os :
  same_configuration t (self (read t buf timeout os)).
Proof.
  unfold read. destruct (rcvPacketSize t <? to_int (b_size buf)).
  - unfold same_configuration. now repeat split.
  - apply read_from_configuration.
Qed.

Lemma read_from_delivers timeout :
  forall os t buf l eff,
    let o := read_from t buf timeout l os eff in
    succeeded o = true ->
    exists r n,
      In r os /\ rv r = SysOk n /\
      i (buffer o) = b_size (buffer o) /\
      forall k, 0 <= k < Z.of_N n -> k < b_size buf ->
                b_at (buffer o) k = data r k.
Proof.
  assert (Hok : forall t' buf r n eff',
            rv r = SysOk n ->
            exists r0 n0,
              (r0 = r) /\ rv r0 = SysOk n0 /\
              i (buffer (read_success t' (store buf (Z.of_N n) (data r))
                                      (Z.of_N n) eff')) =
              b_size (buffer (read_success t'
                                (store buf (Z.of_N n) (data r))
                                (Z.of_N n) eff')) /\
              forall k, 0 <= k < Z.of_N n -> k < b_size buf ->
                b_at (buffer (read_success t'
                                (store buf (Z.of_N n) (data r))
                                (Z.of_N n) eff')) k = data r0 k).
  { intros t' buf r n eff' Hr. exists r, n.
    split; [ reflexivity | split; [ exact Hr | split; [ reflexivity | ] ] ].
    intros k Hk Hb. cbn.
    destruct (Z.ltb_spec k (b_size buf)); [ | lia ].
    destruct (Z.leb_spec 0 k); [ | lia ].
    destruct (Z.ltb_spec k (Z.of_N n)); [ reflexivity | lia ]. }
  induction os as [|r os IH]; intros t buf l eff; cbv zeta.
  - destruct l; cbn [read_from];
      [ destruct (_shutdownReadWrite t) | ]; discriminate.
  - assert (Hnext : forall l' eff',
              succeeded (read_from (observe t r) buf timeout l' os eff')
                = true ->
              exists r0 n,
                In r0 (r :: os) /\ rv r0 = SysOk n /\
                i (buffer (read_from (observe t r) buf timeout l' os eff'))
                = b_size (buffer (read_from (observe t r) buf timeout
                                            l' os eff')) /\
                forall k, 0 <= k < Z.of_N n -> k < b_size buf ->
                  b_at (buffer (read_from (observe t r) buf timeout
                                          l' os eff')) k = data r0 k).
    { intros l' eff' H.
      destruct (IH (observe t r) buf l' eff' H) as (r0 & n & Hin & Hrest).
      exists r0, n. split; [ now right | exact Hrest ]. }
    destruct l; cbn [read_from].
    + destruct (_shutdownReadWrite t); [ discriminate | ].
      destruct (rv r) as [e|n] eqn:Hr.
      * unfold on_recv_error.
        destruct (interrupted e); [ apply Hnext | ].
        destruct (wouldBlock e).
        { destruct (timeout =? 0); [ discriminate | apply Hnext ]. }
        destruct (recvTruncated e); discriminate.
      * assert (Hdone : forall t' eff',
                  succeeded (read_success t' (store buf (Z.of_N n) (data r))
                                          (Z.of_N n) eff') = true ->
                  exists r0 n0,
                    In r0 (r :: os) /\ rv r0 = SysOk n0 /\
                    i (buffer (read_success t'
                                 (store buf (Z.of_N n) (data r))
                                 (Z.of_N n) eff')) =
                    b_size (buffer (read_success t'
                                      (store buf (Z.of_N n) (data r))
                                      (Z.of_N n) eff')) /\
                    forall k, 0 <= k < Z.of_N n0 -> k < b_size buf ->
                      b_at (buffer (read_success t'
                                      (store buf (Z.of_N n) (data r))
                                      (Z.of_N n) eff')) k = data r0 k).
        { intros t' eff' _.
          destruct (Hok t' buf r n eff' Hr) as (r0 & n0 & -> & Hr0 & Hi & Hb).
          assert (n0 = n) by congruence. subst n0.
          exists r, n. split; [ now left | now repeat split ]. }
        destruct (_connect (observe t r)); [ | apply Hdone ].
        destruct (connect_exn r); [ discriminate | apply Hdone ].
    + destruct (rv r) as [e|n].
      * destruct (interrupted e); [ apply Hnext | discriminate ].
      * destruct n; [ discriminate | apply Hnext ].
Qed.

(** X8: a [read] that returns true hands the caller the datagram of the
    reply that ended it: the position of the buffer is at its end and the
    bytes below the received length (and below the ceiling) are the bytes
    of that datagram. *)
Theorem read_delivers_datagram t buf timeout os :
  28 <= _rcvSize t <= INT_MAX ->
  succeeded (read t buf timeout os) = true ->
  exists r n,
    In r os /\ rv r = SysOk n /\
    i (buffer (read t buf timeout os)) =
      b_size (buffer (read t buf timeout os)) /\
    forall k, 0 <= k < Z.of_N n -> k < Z.min 65507 (_rcvSize t - 28) ->
              b_at (buffer (read t buf timeout os)) k = data r k.
Proof.
  intros Hr. unfold read.
  destruct (rcvPacketSize t <? to_int (b_size buf)); [ discriminate | ].
  intros Hs.
  destruct (read_from_delivers timeout os t
              (set_i (resize buf (rcvPacketSize t)) 0) Repeat [] Hs)
    as (r & n & Hin & Hrv & Hi & Hb).
  exists r, n. repeat split; try assumption.
  intros k Hk Hc. apply Hb; [ exact Hk | ]. cbn.
  assert (Hint : in_int (_rcvSize t - _udpOverhead)).
  { unfold in_int, INT_MIN, INT_MAX, _udpOverhead in *. lia. }
  rewrite (rcvPacketSize_exact t Hint), to_size_t_id; lia.
Qed.

Lemma read_delivers_datagram_witness :
  let o := read (udp 5 false false 1028 1028) (payload 100) 250 [abc] in
  exists r n,
    In r [abc] /\ rv r = SysOk n /\
    i (buffer o) = b_size (buffer o) /\
    forall k, 0 <= k < Z.of_N n -> k < Z.min 65507 (1028 - 28) ->
              b_at (buffer o) k = data r k.
Proof.
  apply (read_delivers_datagram (udp 5 false false 1028 1028) (payload 100)
           250 [abc]).
  - unfold INT_MAX. simpl. lia.
  - reflexivity.
Defined.

(** X9: a [read] into a buffer whose size fits an [int] and exceeds
    min(65507, receiveBufferSize - 28) throws DatagramLimitException; it
    makes no system call, leaves the buffer and the transceiver as they
    were, and logs one warning if Ice.Warn.Datagrams is set and nothing
    otherwise. *)
Theorem read_over_ceiling_throws t buf timeout os :
  in_int (_rcvSize t - _udpOverhead) ->
  0 <= b_size buf <= INT_MAX ->
  Z.min 65507 (_rcvSize t - 28) < b_size buf ->
  let o := read t buf timeout os in
  result o = Threw (ByValue DatagramLimitException) /\
  effects o =
    when (_warn t)
         (Warn (WarnDatagramLimit (Z.min 65507 (_rcvSize t - 28)))) /\
  self o = t /\ buffer o = buf.
Proof.
  intros Hs Hb Hlt o. subst o. unfold read.
  rewrite (rcvPacketSize_exact t Hs).
  rewrite to_int_id by (unfold in_int, INT_MIN, INT_MAX in *; lia).
  destruct (Z.ltb_spec (Z.min 65507 (_rcvSize t - 28)) (b_size buf)) as [_|H];
    [ | lia ].
  cbn. repeat split; reflexivity.
Qed.

Lemma read_over_ceiling_throws_witness :
  let t := udp_warn 5 128 128 in
  let o := read t (payload 200) 250 [abc] in
  result o = Threw (ByValue DatagramLimitException) /\
  effects o = when true (Warn (WarnDatagramLimit (Z.min 65507 (128 - 28)))) /\
  self o = t /\ buffer o = payload 200.
Proof.
  apply (read_over_ceiling_throws (udp_warn 5 128 128) (payload 200) 250
           [abc]).
  - unfold in_int, INT_MIN, INT_MAX. simpl. lia.
  - unfold INT_MAX. simpl. lia.
  - simpl. lia.
Defined.

Lemma write_from_no_warning t buf timeout os :
  forall l eff,
    existsb is_warning (effects (write_from t buf timeout l os eff)) =
    existsb is_warning eff.
Proof.
  assert (Hcall : forall eff c,
            existsb is_warning (eff ++ [Sys c]) = existsb is_warning eff).
  { intros. rewrite existsb_snoc. apply orb_false_r. }
  induction os as [|r os IH]; intros l eff; destruct l; cbn [write_from].
  - apply Hcall.
  - destruct (timeout =? 0); cbn [effects]; [ reflexivity | apply Hcall ].
  - destruct (rv r) as [e|n].
    + destruct (interrupted e); [ now rewrite IH | ].
      destruct (wouldBlock e); [ now rewrite IH | apply Hcall ].
    + cbn [effects]. rewrite !existsb_app, !existsb_when. cbn.
      now rewrite !andb_false_r, !orb_false_r.
  - destruct (timeout =? 0); [ reflexivity | ].
    destruct (rv r) as [e|n].
    + destruct (interrupted e); [ now rewrite IH | apply Hcall ].
    + destruct n; [ apply Hcall | now rewrite IH ].
Qed.

Lemma read_from_warning buf timeout :
  forall os t l eff,
    let o := read_from t buf timeout l os eff in
    existsb is_warning (effects o) = true ->
    existsb is_warning eff = true \/
    (_warn t = true /\ throws_limit o = true).
Proof.
  assert (Hcall : forall eff c,
            existsb is_warning (eff ++ [Sys c]) = existsb is_warning eff).
  { intros. rewrite existsb_snoc. apply orb_false_r. }
  assert (Hok : forall t' b ret eff',
            existsb is_warning (effects (read_success t' b ret eff')) =
            existsb is_warning eff').
  { intros. unfold read_success. cbn [effects].
    rewrite !existsb_app, !existsb_when. cbn.
    now rewrite !andb_false_r, !orb_false_r. }
  induction os as [|r os IH]; intros t l eff; cbv zeta in *;
    destruct l; cbn [read_from].
  - destruct (_shutdownReadWrite t); cbn [effects]; rewrite ?Hcall; auto.
  - cbn [effects]. rewrite Hcall. auto.
  - destruct (_shutdownReadWrite t); [ cbn [effects]; auto | ].
    destruct (rv r) as [e|n].
    + unfold on_recv_error.
      destruct (interrupted e).
      { intros H. apply (IH (observe t r)) in H. now rewrite Hcall in H. }
      destruct (wouldBlock e).
      { destruct (timeout =? 0).
        - cbn [effects]. rewrite app_nil_r, Hcall. auto.
        - intros H. apply (IH (observe t r)) in H.
          now rewrite Hcall in H. }
      destruct (recvTruncated e); cbn [effects].
      * rewrite existsb_app, existsb_when, Hcall. cbn.
        rewrite andb_true_r. intros H.
        apply orb_prop in H as [H|H]; [ now left | right ].
        split; [ exact H | reflexivity ].
      * rewrite app_nil_r, Hcall. auto.
    + destruct (_connect (observe t r)).
      * destruct (connect_exn r).
        -- cbn [effects]. rewrite !Hcall. auto.
        -- rewrite Hok, existsb_app, existsb_when, !Hcall. cbn.
           rewrite andb_false_r, orb_false_r. auto.
      * rewrite Hok, Hcall. auto.
  - destruct (rv r) as [e|n].
    + destruct (interrupted e).
      * intros H. apply (IH (observe t r)) in H. now rewrite Hcall in H.
      * cbn [effects]. rewrite Hcall. auto.
    + destruct n; [ cbn [effects]; rewrite Hcall; auto | ].
      intros H. apply (IH (observe t r)) in H. now rewrite Hcall in H.
Qed.

(** X10: [write] never logs a warning (its size-limit failure goes to the
    caller only), and a [read] logs a warning only when
    Ice.Warn.Datagrams is set and the call ends with
    DatagramLimitException. *)
Theorem warnings_only_for_datagram_limit t buf timeout os :
  existsb is_warning (effects (write t buf timeout os)) = false /\
  (existsb is_warning (effects (read t buf timeout os)) = true ->
   _warn t = true /\ throws_limit (read t buf timeout os) = true).
Proof.
  unfold write, read. split.
  - destruct (sndPacketSize t <? to_int (b_size buf)); [ reflexivity | ].
    now rewrite write_from_no_warning.
  - destruct (rcvPacketSize t <? to_int (b_size buf)).
    + cbn. destruct (_warn t); [ now split | discriminate ].
    + intros H. apply read_from_warning in H as [H|H];
        [ discriminate | exact H ].
Qed.

Lemma warnings_only_for_datagram_limit_witness :
  let t := udp_warn 5 1028 1028 in
  let o := read t (payload 100) 250 [mk (SOCKET_ERROR EMSGSIZE)] in
  existsb is_warning (effects o) = true /\
  _warn t = true /\ throws_limit o = true.
Proof.
  cbv zeta. split; [ reflexivity | ].
  apply (warnings_only_for_datagram_limit (udp_warn 5 1028 1028)
           (payload 100) 250 [mk (SOCKET_ERROR EMSGSIZE)]).
  reflexivity.
Defined.

(** ** checkSendSize *)

Lemma write_from_no_limit t buf timeout os :
  forall l eff, throws_limit (write_from t buf timeout l os eff) = false.
Proof.
  induction os as [|r os IH]; intros l eff; destruct l; cbn [write_from].
  - reflexivity.
  - destruct (timeout =? 0); reflexivity.
  - destruct (rv r) as [e|n]; [ | reflexivity ].
    destruct (interrupted e); [ apply IH | ].
    destruct (wouldBlock e); [ apply IH | reflexivity ].
  - destruct (timeout =? 0); [ reflexivity | ].
    destruct (rv r) as [e|n].
    + destruct (interrupted e); [ apply IH | reflexivity ].
    + destruct n; [ reflexivity | apply IH ].
Qed.

(** X11: [checkSendSize] and [write] agree on the datagram limit.  A
    buffer that [checkSendSize] accepts is never refused by [write] with
    DatagramLimitException; a buffer that [checkSendSize] refuses with
    DatagramLimitException is refused by every [write] before any system
    call; and a buffer larger than [messageSizeMax] is refused with
    MemoryLimitException, whatever the datagram limit. *)
Theorem checkSendSize_guards_write t buf messageSizeMax :
  (checkSendSize t buf messageSizeMax = None ->
   forall timeout os, throws_limit (write t buf timeout os) = false) /\
  (checkSendSize t buf messageSizeMax = Some DatagramLimitException ->
   forall timeout os,
     result (write t buf timeout os) = Threw (ByValue DatagramLimitException)
     /\ existsb is_syscall (effects (write t buf timeout os)) = false) /\
  (messageSizeMax < b_size buf ->
   checkSendSize t buf messageSizeMax = Some MemoryLimitException).
Proof.
  unfold checkSendSize, write. repeat split.
  - destruct (messageSizeMax <? b_size buf); [ discriminate | ].
    destruct (sndPacketSize t <? to_int (b_size buf)); [ discriminate | ].
    intros _ timeout os. apply write_from_no_limit.
  - destruct (messageSizeMax <? b_size buf); [ discriminate | ].
    destruct (sndPacketSize t <? to_int (b_size buf)); [ | discriminate ].
    reflexivity.
  - destruct (messageSizeMax <? b_size buf); [ discriminate | ].
    destruct (sndPacketSize t <? to_int (b_size buf)); [ | discriminate ].
    reflexivity.
  - intros H. apply Z.ltb_lt in H. now rewrite H.
Qed.

Lemma checkSendSize_guards_write_witness :
  let t := udp 5 false false 1028 1028 in
  throws_limit (write t (payload 1000) 250 [mk (SysOk 1000)]) = false /\
  result (write t (payload 1001) 250 [mk (SysOk 1001)]) =
    Threw (ByValue DatagramLimitException) /\
  checkSendSize t (payload 1001) 512 = Some MemoryLimitException.
Proof.
  cbv zeta.
  destruct (checkSendSize_guards_write (udp 5 false false 1028 1028)
              (payload 1000) 4096) as [A _].
  destruct (checkSendSize_guards_write (udp 5 false false 1028 1028)
              (payload 1001) 4096) as [_ [B _]].
  destruct (checkSendSize_guards_write (udp 5 false false 1028 1028)
              (payload 1001) 512) as [_ [_ C]].
  split; [ apply A; reflexivity | split ].
  - apply B; reflexivity.
  - apply C. simpl. lia.
Defined.

(** ** setBufSize *)

Lemma setBufSize_dir_requests os inst receive t eff :
  Forall (request_ok os inst) eff ->
  Forall (request_ok os inst) (snd (setBufSize_dir os inst receive t eff)).
Proof.
  intros H.
  assert (Hsnoc : forall eff' e, Forall (request_ok os inst) eff' ->
                    request_ok os inst e ->
                    Forall (request_ok os inst) (eff' ++ [e])).
  { intros. now apply Forall_snoc. }
  unfold setBufSize_dir, bind, call, get, modify, emit, whenM, ret,
    getPropertyAsIntWithDefault.
  change (if receive then Ice_UDP_RcvSize inst else Ice_UDP_SndSize inst)
    with (override_of inst receive).
  assert (Hfail : forall eff' c,
            Forall (request_ok os inst) eff' ->
            request_ok os inst (Sys c) ->
            Forall (request_ok os inst)
              (eff' ++ Sys c :: match fd_of c with
                                | Some fd => [Sys (closeSocket fd)]
                                | None => []
                                end)).
  { intros eff' c He Hc. apply Forall_app. split; [ exact He | ].
    constructor; [ exact Hc | ].
    destruct (fd_of c); repeat constructor. }
  destruct (fails os (getBufferSize receive (_fd t)));
    [ cbn [snd]; now apply Hfail | ].
  destruct (override_of inst receive) as [v|] eqn:Hov.
  - destruct (Z.ltb_spec v _udpOverhead) as [Hv|Hv].
    + rewrite Z.eqb_refl. cbn. repeat apply Hsnoc; try exact I. exact H.
    + destruct (Z.eqb_spec v (dflt os receive)) as [Hd|Hd]; cbn [negb].
      * cbn. now apply Hsnoc.
      * assert (Hreq : Forall (request_ok os inst)
                         ((eff ++ [Sys (getBufferSize receive (_fd t))])
                          ++ [Sys (setBufferSize receive (_fd t) v)])).
        { apply Hsnoc; [ now apply Hsnoc | ].
          unfold request_ok. now repeat split. }
        destruct (fails os (setBufferSize receive (_fd t) v)).
        { cbn [snd]. apply Hfail; [ now apply Hsnoc | ].
          unfold request_ok. now repeat split. }
        destruct (applied os receive v <? v); cbn [snd];
          repeat apply Hsnoc; try exact I; try exact H;
          unfold request_ok; now repeat split.
  - destruct (dflt os receive <? _udpOverhead); rewrite Z.eqb_refl; cbn;
      repeat apply Hsnoc; try exact I; exact H.
Qed.

(** X12: whether its calls fail or not, [setBufSize] asks the OS for a
    buffer size only when the override of that direction is configured, is
    at least the 28 bytes of overhead and differs from the default; the
    size it asks for is that override. *)
Theorem setBufSize_requests os inst t :
  Forall (request_ok os inst) (snd (setBufSize os inst t [])).
Proof.
  unfold setBufSize, bind.
  pose proof (setBufSize_dir_requests os inst true t [] (Forall_nil _)) as H1.
  destruct (setBufSize_dir os inst true t []) as [[[a|x] t1] eff1];
    cbn [snd] in *; [ | exact H1 ].
  now apply setBufSize_dir_requests.
Qed.

(** ** Construction when no call fails *)

Lemma set_size_twice receive a b t :
  set_size receive a (set_size receive b t) = set_size receive a t.
Proof. now destruct receive, t. Qed.

Lemma setBufSize_dir_run os inst receive t eff :
  (forall c, fails os c = None) ->
  setBufSize_dir os inst receive t eff =
  (Ok tt,
   set_size receive
     (spec_negotiated_size os receive (override_of inst receive)) t,
   eff ++ spec_negotiation_effects os receive (_fd t)
            (override_of inst receive)).
Proof.
  intros Hf.
  unfold setBufSize_dir, spec_negotiated_size, spec_negotiation_effects,
    bind, call, get, modify, emit, whenM, ret, getPropertyAsIntWithDefault.
  rewrite !Hf.
  change (if receive then Ice_UDP_RcvSize inst else Ice_UDP_SndSize inst)
    with (override_of inst receive).
  change _udpOverhead with 28.
  destruct (override_of inst receive) as [v|].
  - destruct (v <? 28) eqn:Hv; cbn [negb].
    + rewrite Z.eqb_refl. cbn [negb]. now rewrite <- app_assoc, app_nil_r.
    + destruct (v =? dflt os receive) eqn:Hd; cbn [negb].
      * now rewrite !app_nil_r.
      * rewrite !Hf.
        destruct (applied os receive v <? v); cbn [app];
          now rewrite set_size_twice, <- !app_assoc.
  - destruct (dflt os receive <? 28); rewrite Z.eqb_refl; cbn [negb];
      now rewrite <- ?app_assoc, ?app_nil_r.
Qed.

Lemma setBufSize_run os inst t eff :
  (forall c, fails os c = None) ->
  setBufSize os inst t eff =
  (Ok tt,
   set_size false (spec_negotiated_size os false (Ice_UDP_SndSize inst))
     (set_size true (spec_negotiated_size os true (Ice_UDP_RcvSize inst)) t),
   eff ++ spec_negotiation_effects os true (_fd t) (Ice_UDP_RcvSize inst)
       ++ spec_negotiation_effects os false (_fd t) (Ice_UDP_SndSize inst)).
Proof.
  intros Hf. unfold setBufSize, bind.
  rewrite (setBufSize_dir_run os inst true t eff Hf).
  rewrite (setBufSize_dir_run os inst false _ _ Hf).
  cbn [override_of set_size _fd]. now rewrite <- app_assoc.
Qed.

Lemma connect_ctor_ok os inst addr mcastInterface mcastTtl :
  (forall c, fails os c = None) ->
  UdpTransceiver_connect os inst addr mcastInterface mcastTtl =
  (Ok tt,
   mkUdp (traceLevels_network inst) (initializationData_stats inst)
         false addr (new_fd os) false (0 <? Ice_Warn_Datagrams inst) false
         (spec_negotiated_size os true (Ice_UDP_RcvSize inst))
         (spec_negotiated_size os false (Ice_UDP_SndSize inst))
         (_mcastServer (uninit os)),
   connect_ctor_calls os inst addr mcastInterface mcastTtl).
Proof.
  intros Hf.
  unfold UdpTransceiver_connect, try_catch_rethrow, connect_ctor_body,
    connect_ctor_calls.
  unfold bind at 1. unfold createSocket_ at 1. rewrite Hf.
  unfold bind at 1. rewrite (setBufSize_run os inst _ _ Hf).
  unfold bind, get, call, modify, whenM, emit, ret. rewrite !Hf.
  cbn [_fd _addr network set_fd set_size set_connect init_members app].
  generalize (spec_negotiation_effects os true (new_fd os)
                (Ice_UDP_RcvSize inst)) as nr.
  generalize (spec_negotiation_effects os false (new_fd os)
                (Ice_UDP_SndSize inst)) as ns.
  generalize (spec_negotiated_size os true (Ice_UDP_RcvSize inst)) as sr.
  generalize (spec_negotiated_size os false (Ice_UDP_SndSize inst)) as ss.
  intros ss sr ns nr.
  destruct (multicast os addr);
    destruct (0 <? Z.of_nat (String.length mcastInterface));
    destruct (negb (mcastTtl =? -1));
    destruct (1 <=? traceLevels_network inst);
    rewrite ?Hf; cbn; rewrite <- ?app_assoc; reflexivity.
Qed.

Lemma bind_ctor_ok os inst port mcastInterface connect :
  (forall c, fails os c = None) ->
  UdpTransceiver_bind os inst port mcastInterface connect =
  (Ok tt,
   mkUdp (traceLevels_network inst) (initializationData_stats inst)
         true (resolved os) (new_fd os) connect
         (0 <? Ice_Warn_Datagrams inst) false
         (spec_negotiated_size os true (Ice_UDP_RcvSize inst))
         (spec_negotiated_size os false (Ice_UDP_SndSize inst))
         (if multicast os (resolved os) then true
          else _mcastServer (uninit os)),
   bind_ctor_calls os inst port).
Proof.
  intros Hf.
  unfold UdpTransceiver_bind, try_catch_rethrow, bind_ctor_body,
    bind_ctor_calls.
  unfold bind at 1. unfold call at 1. rewrite Hf.
  unfold bind at 1. unfold modify at 1.
  unfold bind at 1. unfold createSocket_ at 1. rewrite Hf.
  unfold bind at 1. rewrite (setBufSize_run os inst _ _ Hf).
  unfold bind, get, call, modify, whenM, emit, ret. rewrite !Hf.
  cbn [_fd _addr network set_fd set_size set_connect set_addr
       init_members app].
  generalize (spec_negotiation_effects os true (new_fd os)
                (Ice_UDP_RcvSize inst)) as nr.
  generalize (spec_negotiation_effects os false (new_fd os)
                (Ice_UDP_SndSize inst)) as ns.
  generalize (spec_negotiated_size os true (Ice_UDP_RcvSize inst)) as sr.
  generalize (spec_negotiated_size os false (Ice_UDP_SndSize inst)) as ss.
  intros ss sr ns nr.
  destruct (multicast os (resolved os));
    destruct (2 <=? traceLevels_network inst);
    destruct (1 <=? traceLevels_network inst);
    rewrite ?Hf; cbn; rewrite <- ?app_assoc; reflexivity.
Qed.

(** X13: when no call fails, the connect-mode constructor succeeds and
    the transceiver it returns is outbound, not shut down, connected
    ([_connect] is false) to the target on the new descriptor, with the
    negotiated buffer sizes; [_mcastServer] keeps what the memory held
    (no initialiser sets it).  The calls are, in order: create the
    socket, negotiate the receive then the send size, make the socket
    non-blocking, connect, and only for a multicast target set the
    interface (if one is named) and the TTL (if it is not -1). *)
Theorem connect_ctor_run os inst addr mcastInterface mcastTtl :
  (forall c, fails os c = None) ->
  UdpTransceiver_connect os inst addr mcastInterface mcastTtl =
  (Ok tt,
   mkUdp (traceLevels_network inst) (initializationData_stats inst)
         false addr (new_fd os) false (0 <? Ice_Warn_Datagrams inst) false
         (spec_negotiated_size os true (Ice_UDP_RcvSize inst))
         (spec_negotiated_size os false (Ice_UDP_SndSize inst))
         (_mcastServer (uninit os)),
   connect_ctor_calls os inst addr mcastInterface mcastTtl).
Proof. exact (connect_ctor_ok os inst addr mcastInterface mcastTtl). Qed.

Lemma connect_ctor_run_witness :
  UdpTransceiver_connect os_mcast inst0 9000 "eth0" 3 =
  (Ok tt, mkUdp 0 false false 9000 7 false false false 65536 65536 false,
   [Sys (createSocket 7); Sys (getBufferSize true 7);
    Sys (getBufferSize false 7); Sys (setBlock 7 false);
    Sys (doConnect 7 9000); Sys (setMcastInterface 7);
    Sys (setMcastTtl 7 3)]).
Proof.
  exact (connect_ctor_run os_mcast inst0 9000 "eth0" 3 (fun _ => eq_refl)).
Defined.

(** X14: when no call fails, the bind-mode constructor succeeds and the
    transceiver it returns is inbound, not shut down, on the new
    descriptor and the resolved address, with [_connect] as the caller
    passed it and the negotiated buffer sizes; [_mcastServer] is set for a
    multicast address and otherwise keeps what the memory held.  The
    calls are, in order: resolve the address, create the socket,
    negotiate the sizes, make the socket non-blocking, enable address
    reuse, bind, and only for a multicast address join the group. *)
Theorem bind_ctor_run os inst port mcastInterface connect :
  (forall c, fails os c = None) ->
  UdpTransceiver_bind os inst port mcastInterface connect =
  (Ok tt,
   mkUdp (traceLevels_network inst) (initializationData_stats inst)
         true (resolved os) (new_fd os) connect
         (0 <? Ice_Warn_Datagrams inst) false
         (spec_negotiated_size os true (Ice_UDP_RcvSize inst))
         (spec_negotiated_size os false (Ice_UDP_SndSize inst))
         (if multicast os (resolved os) then true
          else _mcastServer (uninit os)),
   bind_ctor_calls os inst port).
Proof. exact (bind_ctor_ok os inst port mcastInterface connect). Qed.

Lemma bind_ctor_run_witness :
  UdpTransceiver_bind os_mcast inst0 9000 "eth0" true =
  (Ok tt, mkUdp 0 false true 9000 7 true false false 65536 65536 true,
   [Sys (getAddressForServer 9000); Sys (createSocket 7);
    Sys (getBufferSize true 7); Sys (getBufferSize false 7);
    Sys (setBlock 7 false); Sys (setReuseAddress 7); Sys (doBind 7 9000);
    Sys (setMcastGroup 7 9000)]).
Proof.
  exact (bind_ctor_run os_mcast inst0 9000 "eth0" true (fun _ => eq_refl)).
Defined.

(** ** The life of a socket *)

Lemma negotiation_neutral os receive fd override acc :
  open_sockets (spec_negotiation_effects os receive fd override) acc = acc.
Proof.
  apply open_sockets_neutral. unfold spec_negotiation_effects.
  repeat match goal with
         | |- context [if ?c then _ else _] => destruct c
         end; reflexivity.
Qed.

Lemma connect_calls_open os inst addr mi ttl :
  open_sockets (connect_ctor_calls os inst addr mi ttl) [] = [new_fd os].
Proof.
  unfold connect_ctor_calls. cbv zeta.
  destruct (multicast os addr);
    destruct (0 <? Z.of_nat (String.length mi));
    destruct (negb (ttl =? -1));
    destruct (1 <=? traceLevels_network inst);
    cbn [when app open_sockets];
    rewrite !open_sockets_app;
    rewrite !negotiation_neutral; reflexivity.
Qed.

Lemma bind_calls_open os inst port :
  open_sockets (bind_ctor_calls os inst port) [] = [new_fd os].
Proof.
  unfold bind_ctor_calls. cbv zeta.
  destruct (multicast os (resolved os));
    destruct (2 <=? traceLevels_network inst);
    destruct (1 <=? traceLevels_network inst);
    cbn [when app open_sockets];
    rewrite !open_sockets_app;
    rewrite !negotiation_neutral; reflexivity.
Qed.

Lemma close_releases t eff :
  open_sockets eff [] = [_fd t] ->
  open_sockets (eff ++ snd (close t)) [] = [] /\
  destructor_assert (fst (close t)) = true.
Proof.
  intros H. split; [ | reflexivity ].
  rewrite open_sockets_app, H. unfold close. cbn [snd].
  rewrite open_sockets_app.
  rewrite (open_sockets_neutral (when _ _))
    by (destruct (1 <=? network t); reflexivity).
  cbn. now rewrite Z.eqb_refl.
Qed.

(** X15: in the normal life of a transceiver no socket is left open and
    the assertion of the destructor holds: when no call fails, either
    constructor followed by [close] leaves no descriptor open and [_fd]
    invalid.  The assertion of the destructor also holds after a
    constructor that failed, whatever failed. *)
Theorem construct_then_close os inst addr port mcastInterface mcastTtl
    connect :
  ((forall c, fails os c = None) ->
   (let '(_, t, eff) :=
      UdpTransceiver_connect os inst addr mcastInterface mcastTtl in
    open_sockets (eff ++ snd (close t)) [] = [] /\
    destructor_assert (fst (close t)) = true) /\
   (let '(_, t, eff) :=
      UdpTransceiver_bind os inst port mcastInterface connect in
    open_sockets (eff ++ snd (close t)) [] = [] /\
    destructor_assert (fst (close t)) = true)) /\
  match UdpTransceiver_connect os inst addr mcastInterface mcastTtl with
  | (Raise _, t, _) => destructor_assert t = true
  | (Ok _, _, _) => True
  end /\
  match UdpTransceiver_bind os inst port mcastInterface connect with
  | (Raise _, t, _) => destructor_assert t = true
  | (Ok _, _, _) => True
  end.
Proof.
  split; [ | split ].
  - intros Hf. split.
    + rewrite (connect_ctor_ok os inst addr mcastInterface mcastTtl Hf).
      apply close_releases. apply connect_calls_open.
    + rewrite (bind_ctor_ok os inst port mcastInterface connect Hf).
      apply close_releases. apply bind_calls_open.
  - unfold UdpTransceiver_connect, try_catch_rethrow.
    destruct (connect_ctor_body _ _ _ _ _ _) as [[[a|x] t'] eff'];
      [ exact I | reflexivity ].
  - unfold UdpTransceiver_bind, try_catch_rethrow.
    destruct (bind_ctor_body _ _ _ _ _ _) as [[[a|x] t'] eff'];
      [ exact I | reflexivity ].
Qed.

Lemma construct_then_close_witness :
  (let '(_, t, eff) := UdpTransceiver_connect os_mcast inst0 9000 "eth0" 3 in
   open_sockets (eff ++ snd (close t)) [] = [] /\
   destructor_assert (fst (close t)) = true) /\
  (let '(_, t, eff) := UdpTransceiver_bind os_mcast inst0 9000 "eth0" true in
   open_sockets (eff ++ snd (close t)) [] = [] /\
   destructor_assert (fst (close t)) = true).
Proof.
  destruct (construct_then_close os_mcast inst0 9000 9000 "eth0" 3 true)
    as [H _].
  exact (H (fun _ => eq_refl)).
Defined.

(** ** The size limit of write, and construction followed by I/O *)

Lemma write_limit_iff t buf timeout os :
  in_int (_sndSize t - _udpOverhead) ->
  0 <= b_size buf <= INT_MAX ->
  throws_limit (write t buf timeout os) =
  (Z.min 65507 (_sndSize t - 28) <? b_size buf).
Proof.
  intros Hs Hb. unfold write.
  rewrite (sndPacketSize_exact t Hs).
  rewrite to_int_id by (unfold in_int, INT_MIN, INT_MAX in *; lia).
  destruct (Z.min 65507 (_sndSize t - 28) <? b_size buf);
    [ reflexivity | apply write_from_no_limit ].
Qed.

(** X16: for a payload whose length fits an [int], [write] ends with
    DatagramLimitException exactly when the length exceeds
    min(65507, sendBufferSize - 28): a payload within the ceiling is
    never refused for its size, whatever the OS replies. *)
Theorem write_refuses_exactly_over_ceiling t buf timeout os :
  in_int (_sndSize t - _udpOverhead) ->
  0 <= b_size buf <= INT_MAX ->
  throws_limit (write t buf timeout os) =
  (Z.min 65507 (_sndSize t - 28) <? b_size buf).
Proof. exact (write_limit_iff t buf timeout os). Qed.

Lemma write_refuses_exactly_over_ceiling_witness :
  throws_limit (write (udp 5 false false 1028 1028) (payload 1000) 250
                      [mk (SOCKET_ERROR (EOTHER 104))]) =
  (Z.min 65507 (1028 - 28) <? 1000).
Proof.
  apply (write_refuses_exactly_over_ceiling (udp 5 false false 1028 1028)
           (payload 1000) 250 [mk (SOCKET_ERROR (EOTHER 104))]).
  - unfold in_int, INT_MIN, INT_MAX. simpl. lia.
  - unfold INT_MAX. simpl. lia.
Defined.

(** X17: a transceiver built by the connect-mode constructor (no call
    failing) is connected from the start: every receive of a later [read]
    is a plain [recv] on the new descriptor; it never uses [recvfrom] and
    never connects to a first peer. *)
Theorem outbound_reads_plainly os inst addr mcastInterface mcastTtl
    buf timeout replies :
  (forall c, fails os c = None) ->
  let t := snd (fst (UdpTransceiver_connect os inst addr mcastInterface
                                            mcastTtl)) in
  Forall (plain_receive (new_fd os)) (effects (read t buf timeout replies)).
Proof.
  intros Hf. rewrite (connect_ctor_ok os inst addr mcastInterface mcastTtl Hf).
  cbn [fst snd]. cbv zeta. unfold read.
  match goal with |- context [if ?c then _ else _] => destruct c end.
  - cbn. destruct (0 <? Ice_Warn_Datagrams inst); repeat constructor.
  - eapply Forall_impl; [ | apply read_from_calls; constructor ].
    intros e He. destruct e as [c| | | | |]; try exact I.
    destruct c; cbn in *; try exact I; try tauto.
    + destruct He as (_ & _ & Hc). discriminate.
    + destruct He as (_ & Hc). discriminate.
Qed.

Lemma outbound_reads_plainly_witness :
  Forall (plain_receive 7)
    (effects (read (snd (fst (UdpTransceiver_connect os_ok inst0 9000
                                                     EmptyString (-1))))
                   (payload 100) 0 [abc])).
Proof.
  exact (outbound_reads_plainly os_ok inst0 9000 EmptyString (-1)
           (payload 100) 0 [abc] (fun _ => eq_refl)).
Defined.

(** X18: after construction the ceiling of [write] follows the size the
    OS applied, not the size that was requested: for a payload whose
    length fits an [int], [write] on the new transceiver throws
    DatagramLimitException exactly when the length exceeds
    min(65507, negotiated send size - 28). *)
Theorem constructed_write_ceiling os inst addr mcastInterface mcastTtl
    buf timeout replies :
  (forall c, fails os c = None) ->
  in_int (spec_negotiated_size os false (Ice_UDP_SndSize inst)
          - _udpOverhead) ->
  0 <= b_size buf <= INT_MAX ->
  let t := snd (fst (UdpTransceiver_connect os inst addr mcastInterface
                                            mcastTtl)) in
  throws_limit (write t buf timeout replies) =
  (Z.min 65507 (spec_negotiated_size os false (Ice_UDP_SndSize inst) - 28)
   <? b_size buf).
Proof.
  intros Hf Hs Hb.
  rewrite (connect_ctor_ok os inst addr mcastInterface mcastTtl Hf).
  cbn [fst snd]. cbv zeta. now apply write_limit_iff.
Qed.

Lemma constructed_write_ceiling_witness :
  let inst := mkInstance 0 false 0 None (Some 131072) in
  let os := mkOS (fun _ => None) 7 9000 (fun _ => false) (fun _ => 65536)
                 (fun _ z => Z.min z 1028) (udp 0 false false 0 0) in
  throws_limit
    (write (snd (fst (UdpTransceiver_connect os inst 9000 EmptyString (-1))))
           (payload 1001) 250 [mk (SysOk 1001)]) =
  (Z.min 65507 (1028 - 28) <? 1001).
Proof.
  apply (constructed_write_ceiling
           (mkOS (fun _ => None) 7 9000 (fun _ => false) (fun _ => 65536)
                 (fun _ z => Z.min z 1028) (udp 0 false false 0 0))
           (mkInstance 0 false 0 None (Some 131072))
           9000 EmptyString (-1) (payload 1001) 250 [mk (SysOk 1001)]).
  - intros c. reflexivity.
  - unfold in_int, INT_MIN, INT_MAX. simpl. lia.
  - unfold INT_MAX. simpl. lia.
Defined.

Lemma write_from_ignores_flag t buf timeout os s :
  forall l eff,
    let o := write_from t buf timeout l os eff in
    let o' := write_from (set_shutdownReadWrite t s) buf timeout l os eff in
    result o' = result o /\ effects o' = effects o /\ buffer o' = buffer o.
Proof.
  induction os as [|r os IH]; intros l eff; destruct l; cbn [write_from].
  - now repeat split.
  - destruct (timeout =? 0); now repeat split.
  - destruct (rv r) as [e|n]; [ | now repeat split ].
    destruct (interrupted e); [ apply IH | ].
    destruct (wouldBlock e); [ apply IH | now repeat split ].
  - destruct (timeout =? 0); [ now repeat split | ].
    destruct (rv r) as [e|n].
    + destruct (interrupted e); [ apply IH | now repeat split ].
    + destruct n; [ now repeat split | apply IH ].
Qed.

(** X19: [write] does not look at the shutdown flag: after
    [shutdownReadWrite] a [write] returns or throws what it would have
    without the shutdown, makes the same calls (it still sends) and
    leaves the buffer in the same state; only [read] checks the flag. *)
Theorem write_ignores_shutdown t buf timeout os :
  let o := write t buf timeout os in
  let o' := write (fst (shutdownReadWrite t)) buf timeout os in
  result o' = result o /\ effects o' = effects o /\ buffer o' = buffer o.
Proof.
  cbv zeta. unfold shutdownReadWrite. cbn [fst]. unfold write.
  change (sndPacketSize (set_shutdownReadWrite t true))
    with (sndPacketSize t).
  destruct (sndPacketSize t <? to_int (b_size buf)).
  - now repeat split.
  - apply write_from_ignores_flag.
Qed.

(** ** shutdownReadWrite with the wake-up datagram *)

Lemma shutdownReadWrite_wake_ok w t :
  (forall e, wake_fails w e = None) ->
  shutdownReadWrite_wake w t =
  (Ok tt, set_shutdownReadWrite t true,
   List.map Did (when (2 <=? network t) (Trace 2))
   ++ [fdToLocalAddress (_fd t);
       Did (Sys (shutdownSocketReadWrite (_fd t)))]
   ++ (if _connect t then [] else [connect_AF_UNSPEC (_fd t)])
   ++ List.map Did
        [Sys (createSocket (decoy_fd w));
         Sys (setBlock (decoy_fd w) false);
         Sys (doConnect (decoy_fd w) (localAddr w));
         Sys (sys_send (decoy_fd w) 1);
         Sys (closeSocket (decoy_fd w))]).
Proof.
  intros Hf.
  unfold shutdownReadWrite_wake, trace_throws, helper, decoy_socket,
    unchecked.
  rewrite !Hf.
  replace (if 2 <=? network t then @None exn_kind else None)
    with (@None exn_kind) by (now destruct (2 <=? network t)).
  cbn [fst snd].
  destruct (_connect t); cbn [negb List.map app];
    rewrite <- ?app_assoc; reflexivity.
Qed.

(** X20: on the platforms that need the wake-up, when no helper throws,
    [shutdownReadWrite] sets the flag and makes these calls in order: read
    the local address, shut the socket down, disconnect it unless the
    transceiver still waits for its first peer, then create a second
    socket, make it non-blocking, connect it to the local address, send
    one byte through it and close it.  The transceiver's own socket is
    not closed and the second socket is not left open. *)
Theorem shutdownReadWrite_wake_run w t :
  (forall e, wake_fails w e = None) ->
  decoy_fd w <> _fd t ->
  shutdownReadWrite_wake w t =
  (Ok tt, set_shutdownReadWrite t true,
   List.map Did (when (2 <=? network t) (Trace 2))
   ++ [fdToLocalAddress (_fd t);
       Did (Sys (shutdownSocketReadWrite (_fd t)))]
   ++ (if _connect t then [] else [connect_AF_UNSPEC (_fd t)])
   ++ List.map Did
        [Sys (createSocket (decoy_fd w));
         Sys (setBlock (decoy_fd w) false);
         Sys (doConnect (decoy_fd w) (localAddr w));
         Sys (sys_send (decoy_fd w) 1);
         Sys (closeSocket (decoy_fd w))]) /\
  open_sockets (did (snd (shutdownReadWrite_wake w t))) [_fd t] = [_fd t].
Proof.
  intros Hf Hfd. split; [ now apply shutdownReadWrite_wake_ok | ].
  rewrite (shutdownReadWrite_wake_ok w t Hf). cbn [snd].
  destruct (2 <=? network t); destruct (_connect t); cbn;
    rewrite Z.eqb_refl; cbn;
    (destruct (Z.eqb_spec (_fd t) (decoy_fd w)); [ congruence | reflexivity ]).
Qed.

Lemma shutdownReadWrite_wake_run_witness :
  shutdownReadWrite_wake wake_ok (udp 5 false false 1028 1028) =
  (Ok tt, udp 5 false true 1028 1028,
   [fdToLocalAddress 5; Did (Sys (shutdownSocketReadWrite 5));
    connect_AF_UNSPEC 5; Did (Sys (createSocket 8));
    Did (Sys (setBlock 8 false)); Did (Sys (doConnect 8 4000));
    Did (Sys (sys_send 8 1)); Did (Sys (closeSocket 8))]) /\
  open_sockets
    (did (snd (shutdownReadWrite_wake wake_ok (udp 5 false false 1028 1028))))
    [5] = [5].
Proof.
  apply (shutdownReadWrite_wake_run wake_ok (udp 5 false false 1028 1028)).
  - intros e. reflexivity.
  - discriminate.
Defined.



